(** * Back2work bot: the priority engine (src/app/priority_engine.py)

    A shallow embedding of the scoring function, the priority cascade and
    the project-name unification of [priority_engine.py], and the
    properties its specification states about them; then the detectors of
    [security.py] and [sender_domain] of [email_processing.py], whose
    verdicts the cascade takes as its two security flags.

    Python values are modelled as follows.
    - [str] is a sequence of Unicode code points: [pystr := list N].
    - Every string method is given concretely on ASCII, the way CPython
      computes it.  What Python takes from the Unicode character database
      for other code points (case mappings, NFKD, combining classes, the
      alphabetic and cased properties) is a field of the class
      [UnicodeDB]; every theorem holds for every such table.
    - [Dict[str, Any]] values coming from JSON are scalars of type [pyval];
      the module [Json] adds lists and dicts, and with them the exception
      the scorer raises on a field that cannot be hashed.
    - Dictionaries whose iteration order is observable ([counts], the
      clusters, the resulting mapping) are insertion-ordered association
      lists, as Python dictionaries are. *)

From Stdlib Require Import String Ascii.
From Stdlib Require Import List Bool Arith ZArith NArith Lia.
From Stdlib Require Import QArith Permutation DecimalString.
Import ListNotations.

Set Implicit Arguments.
Close Scope Q_scope.

(** ** Strings *)

Module Str.

Definition char := N.
Definition pystr := list char.

(** An ASCII literal as a Python string. *)
Definition py (s : string) : pystr :=
  List.map N_of_ascii (list_ascii_of_string s).

Fixpoint eqb (a b : pystr) : bool :=
  match a, b with
  | [], [] => true
  | x :: a', y :: b' => N.eqb x y && eqb a' b'
  | _, _ => false
  end.

Definition is_ascii (c : char) : bool := (c <? 128)%N.
Definition all_ascii (s : pystr) : bool := forallb is_ascii s.

Definition in_range (lo hi c : N) : bool := ((lo <=? c) && (c <=? hi))%N.
Definition is_az (c : char) : bool := in_range 97 122 c.
Definition is_AZ (c : char) : bool := in_range 65 90 c.
Definition is_09 (c : char) : bool := in_range 48 57 c.

Definition ascii_lower (c : char) : char := if is_AZ c then (c + 32)%N else c.
Definition ascii_upper (c : char) : char := if is_az c then (c - 32)%N else c.

(** [Py_UNICODE_ISSPACE]: the characters [str.strip], [str.split] and the
    regular expression class [\s] treat as white space. *)
Definition isspace (c : char) : bool :=
  in_range 9 13 c || in_range 28 32 c || N.eqb c 133 || N.eqb c 160
  || N.eqb c 5760 || in_range 8192 8202 c || N.eqb c 8232 || N.eqb c 8233
  || N.eqb c 8239 || N.eqb c 8287 || N.eqb c 12288.

Definition SP : char := 32%N.

Fixpoint lstrip (s : pystr) : pystr :=
  match s with
  | c :: r => if isspace c then lstrip r else s
  | [] => []
  end.

Fixpoint rstrip (s : pystr) : pystr :=
  match s with
  | [] => []
  | c :: r =>
      match rstrip r with
      | [] => if isspace c then [] else [c]
      | r' => c :: r'
      end
  end.

(** [s.strip()] *)
Definition strip (s : pystr) : pystr := rstrip (lstrip s).

(** [s.startswith(p)] *)
Fixpoint startswith (p s : pystr) : bool :=
  match p, s with
  | [], _ => true
  | x :: p', y :: s' => N.eqb x y && startswith p' s'
  | _ :: _, [] => false
  end.

(** [needle in hay] *)
Fixpoint contains (needle hay : pystr) : bool :=
  startswith needle hay ||
  match hay with
  | [] => false
  | _ :: r => contains needle r
  end.

(** [s.split()]: the maximal runs of characters that are not white space. *)
Fixpoint split_aux (cur : pystr) (s : pystr) : list pystr :=
  match s with
  | [] => match cur with [] => [] | _ => [rev cur] end
  | c :: r =>
      if isspace c
      then match cur with [] => split_aux [] r | _ => rev cur :: split_aux [] r end
      else split_aux (c :: cur) r
  end.

Definition split (s : pystr) : list pystr := split_aux [] s.

(** [" ".join(toks)] *)
Fixpoint join (toks : list pystr) : pystr :=
  match toks with
  | [] => []
  | [t] => t
  | t :: r => t ++ SP :: join r
  end.

(** [re.sub(CLASS+, " ", s)] for a character class [p]: every maximal run of
    characters of the class becomes one space. *)
Fixpoint sub_runs (p : char -> bool) (in_run : bool) (s : pystr) : pystr :=
  match s with
  | [] => []
  | c :: r =>
      if p c
      then (if in_run then sub_runs p true r else SP :: sub_runs p true r)
      else c :: sub_runs p false r
  end.

(** Membership of a string in a list or tuple of strings. *)
Definition str_in (s : pystr) (l : list pystr) : bool := existsb (eqb s) l.

(** [any(kw in text for kw in kws)] *)
Definition any_in (kws : list pystr) (text : pystr) : bool :=
  existsb (fun kw => contains kw text) kws.

(** The Unicode character database, outside ASCII. *)
Class UnicodeDB := {
  (** [s.lower()] of a string that is not pure ASCII *)
  lower_full : pystr -> pystr;
  (** [s.capitalize()] of a string that is not pure ASCII *)
  capitalize_full : pystr -> pystr;
  (** [unicodedata.normalize("NFKD", s)] of a string that is not pure ASCII *)
  nfkd_full : pystr -> pystr;
  (** [unicodedata.combining(ch) != 0] *)
  combining_ext : char -> bool;
  (** [ch.isalpha()], the lower-, upper- and title-case properties *)
  isalpha_ext : char -> bool;
  islower_ext : char -> bool;
  isupper_ext : char -> bool;
  istitle_ext : char -> bool
}.

(** The table that knows no letter, case or decomposition outside ASCII:
    enough to evaluate the functions on ASCII inputs, where no field is ever
    consulted. *)
Definition ascii_only : UnicodeDB := {|
  lower_full := fun s => s;
  capitalize_full := fun s => s;
  nfkd_full := fun s => s;
  combining_ext := fun _ => false;
  isalpha_ext := fun _ => false;
  islower_ext := fun _ => false;
  isupper_ext := fun _ => false;
  istitle_ext := fun _ => false
|}.

Section WithUnicode.
Context {U : UnicodeDB}.

(** [s.lower()] *)
Definition lower (s : pystr) : pystr :=
  if all_ascii s then List.map ascii_lower s else lower_full s.

(** [s.capitalize()] *)
Definition capitalize (s : pystr) : pystr :=
  if all_ascii s
  then match s with
       | [] => []
       | c :: r => ascii_upper c :: List.map ascii_lower r
       end
  else capitalize_full s.

(** [unicodedata.normalize("NFKD", s)] *)
Definition nfkd (s : pystr) : pystr :=
  if all_ascii s then s else nfkd_full s.

(** [unicodedata.combining(ch)] as a truth value *)
Definition combining (c : char) : bool :=
  if is_ascii c then false else combining_ext c.

Definition char_isalpha (c : char) : bool :=
  if is_ascii c then is_az c || is_AZ c else isalpha_ext c.
Definition char_islower (c : char) : bool :=
  if is_ascii c then is_az c else islower_ext c.
Definition char_isupper (c : char) : bool :=
  if is_ascii c then is_AZ c else isupper_ext c.
Definition char_istitle (c : char) : bool :=
  if is_ascii c then false else istitle_ext c.

(** [s.isalpha()] *)
Definition isalpha (s : pystr) : bool :=
  match s with [] => false | _ => forallb char_isalpha s end.

(** [s.isupper()]: no lower- or title-case character, and a cased one. *)
Fixpoint isupper_aux (cased : bool) (s : pystr) : bool :=
  match s with
  | [] => cased
  | c :: r =>
      if char_islower c || char_istitle c then false
      else isupper_aux (cased || char_isupper c) r
  end.
Definition isupper (s : pystr) : bool := isupper_aux false s.

(** [s.islower()]: no upper- or title-case character, and a cased one. *)
Fixpoint islower_aux (cased : bool) (s : pystr) : bool :=
  match s with
  | [] => cased
  | c :: r =>
      if char_isupper c || char_istitle c then false
      else islower_aux (cased || char_islower c) r
  end.
Definition islower (s : pystr) : bool := islower_aux false s.

End WithUnicode.

End Str.

Import Str.

(** ** Python values *)

(** The scalars a JSON document or a data-frame cell holds. *)
Inductive pyval :=
| VNone
| VBool (b : bool)
| VInt (z : Z)
| VStr (s : pystr).

(** Python's truth value. *)
Definition truthy (v : pyval) : bool :=
  match v with
  | VNone => false
  | VBool b => b
  | VInt z => negb (Z.eqb z 0)
  | VStr s => match s with [] => false | _ => true end
  end.

(** [v == "literal"] *)
Definition is_str (v : pyval) (s : pystr) : bool :=
  match v with
  | VStr t => eqb t s
  | _ => false
  end.

(** [v in ["a", "b", ...]] *)
Definition val_in (v : pyval) (l : list pystr) : bool :=
  existsb (is_str v) l.

(** ** The priority cascade *)

(** [config.TRUSTED_SENDER_DOMAINS] *)
Definition TRUSTED_SENDER_DOMAINS : list pystr :=
  [py "sandoz.com"; py "sandoz.net"; py "csod.com"; py "microsoft.com";
   py "sharepointonline.com"; py "outlook.com"; py "regaloresponsable.es";
   py "ilunion.com"].

Section Priority.
Context {U : UnicodeDB}.

(** [check_user_overrides]: does the sender match an entry of the VIP list? *)
Definition check_user_overrides (text_content sender : pystr)
    (vip_senders : list pystr) : bool :=
  let sender_clean := strip (lower sender) in
  existsb (fun vip_entry =>
             match vip_entry with
             | [] => false
             | _ => contains (lower vip_entry) sender_clean
             end) vip_senders.

(** The user configuration: [None], or a dictionary of which the cascade
    reads the key ['vip_senders'] (absent: the empty list). *)
Record user_config_t := { vip_senders : list pystr }.

Definition config_vips (user_config : option user_config_t) : list pystr :=
  match user_config with
  | None => []
  | Some c => vip_senders c
  end.

Definition benefit_keywords : list pystr :=
  [py "cesta navidad"; py "lote navidad"; py "obsequio empresa"; py "bonus letter"].

Definition sharing_keywords : list pystr :=
  [py "wants to share"; py "requested access"; py "sharing request"].

Definition support_keywords : list pystr :=
  [py "dare asking"; py "need your support"; py "asking for your support";
   py "need your help"; py "can you help"; py "asking for your help";
   py "appreciate your support"; py "is there a way";
   py "is there an easy way"; py "mentioned you"].

Definition spam_indicators : list pystr :=
  [py "newsletter"; py "promotional"; py "unsubscribe"; py "black friday"; py "sale"].

(** [map_to_priority].  The result is the Python value that is returned: a
    string literal of the function, or the [forced_priority] object. *)
Definition map_to_priority (sender subject body : pystr)
    (email_type action_level decision_level urgency blocks_others : pyval)
    (score : Z) (importance : pyval) (user_config : option user_config_t)
    (forced_priority : pyval) (is_phishing is_spam : bool) : pyval :=
  if is_phishing || is_spam then VStr (py "Low") else
  let full_text := subject ++ SP :: body in
  if check_user_overrides full_text sender (config_vips user_config)
  then VStr (py "High") else
  if truthy forced_priority
     && val_in forced_priority [py "High"; py "Medium"; py "Low"]
  then forced_priority else
  let is_trusted :=
    existsb (fun d => contains d (lower sender)) TRUSTED_SENDER_DOMAINS in
  if is_trusted && any_in benefit_keywords (lower subject)
  then VStr (py "Medium") else
  if any_in sharing_keywords (lower subject)
     && (contains (py "sharepoint") (lower sender)
         || contains (py "confluence") (lower sender))
  then VStr (py "High") else
  if is_str urgency (py "Immediate") || truthy blocks_others
  then VStr (py "High") else
  if (75 <=? score)%Z then VStr (py "High") else
  if val_in email_type [py "Approval_Request"; py "Decision_Required"]
  then VStr (py "High") else
  if is_str action_level (py "Mandatory") && is_str urgency (py "Short-term")
  then VStr (py "High") else
  if is_str email_type (py "External_Request")
     && val_in urgency [py "Immediate"; py "Short-term"]
  then VStr (py "High") else
  if any_in support_keywords (lower body) then VStr (py "Medium") else
  if val_in action_level [py "Mandatory"; py "Optional"]
  then (if (50 <=? score)%Z then VStr (py "Medium") else VStr (py "Medium")) else
  if negb is_trusted && any_in spam_indicators (lower full_text)
  then VStr (py "Low") else
  if (score <? 30)%Z && is_str action_level (py "None") then VStr (py "Low") else
  if is_str urgency (py "Low") && is_str action_level (py "None")
  then VStr (py "Low") else
  VStr (py "Medium").

End Priority.

(** ** The priority score *)

(** [str(v)] *)
Definition py_str (v : pyval) : pystr :=
  match v with
  | VNone => py "None"
  | VBool true => py "True"
  | VBool false => py "False"
  | VInt z => py (DecimalString.NilZero.string_of_int (Z.to_int z))
  | VStr s => s
  end.

(** The analysis dictionary [data]. *)
Definition pydict := list (string * pyval).

Fixpoint dict_find (data : pydict) (k : string) : option pyval :=
  match data with
  | [] => None
  | (k', v) :: r => if String.eqb k k' then Some v else dict_find r k
  end.

(** [data.get(k, default)] *)
Definition dget (data : pydict) (k : string) (default : pyval) : pyval :=
  match dict_find data k with
  | Some v => v
  | None => default
  end.

(** [type_weights.get(email_type, 0)] *)
Definition type_weight (email_type : pyval) : Z :=
  if is_str email_type (py "Approval_Request") then 25
  else if is_str email_type (py "Decision_Required") then 25
  else if is_str email_type (py "External_Request") then 20
  else if is_str email_type (py "Action_Request") then 15
  else if is_str email_type (py "Meeting") then 10
  else if is_str email_type (py "Report_Update") then 5
  else if is_str email_type (py "FYI_Informational") then 0
  else if is_str email_type (py "Notification_System") then (-15)
  else 0.

(** [urgency_weights.get(detected_urgency, 0)] *)
Definition urgency_weight (urgency : pyval) : Z :=
  if is_str urgency (py "Immediate") then 30
  else if is_str urgency (py "Short-term") then 20
  else if is_str urgency (py "Medium-term") then 10
  else if is_str urgency (py "Low") then (-5)
  else 0.

Definition spam_keywords : list pystr :=
  [py "newsletter"; py "promotional"; py "black friday"; py "sale";
   py "unsubscribe"; py "club novartis"].

Definition marketing_triggers : list pystr :=
  [py "trial"; py "free access"; py "survey"; py "encuesta"; py "webinar";
   py "demo"; py "easyvideo"; py "trail"].

Definition closure_keywords : list pystr :=
  [py "confirmed completion"; py "task completed"; py "no action";
   py "thanks"; py "got it"; py "acknowledged"].

(** Nanoseconds in a day: [Timedelta.days] is the floor of the difference
    divided by it. *)
Definition NS_PER_DAY : Z := 86400 * 1000000000.

Section Score.
Context {U : UnicodeDB}.

(** [pd.to_datetime]: the instant a value denotes, in nanoseconds since the
    epoch; [None] when the call raises or gives no instant ([NaT]), in
    which cases the [try] block adds nothing. *)
Variable to_datetime : pyval -> option Z.

(** [pd.Timestamp.now()], in nanoseconds since the epoch. *)
Variable now : Z.

Definition summary_of (data : pydict) : pystr :=
  lower (py_str (dget data "summary" (VStr []))).

Definition full_context_check (data : pydict) (subject : pystr) : pystr :=
  lower subject ++ SP :: summary_of data ++
  SP :: lower (py_str (dget data "project" (VStr []))).

Definition is_marketing_context (data : pydict) (subject : pystr) : bool :=
  any_in marketing_triggers (full_context_check data subject).

(** The weight the deadline adds, from the body of the [try] block. *)
Definition deadline_weight (data : pydict) : Z :=
  match to_datetime (dget data "deadline" VNone) with
  | None => 0
  | Some deadline =>
      let days_until := ((deadline - now) / NS_PER_DAY)%Z in
      if is_str (dget data "action_level" VNone) (py "Mandatory") then
        if (days_until <? 1)%Z then 30
        else if (days_until <? 3)%Z then 20
        else if (days_until <? 7)%Z then 10
        else 0
      else if is_str (dget data "action_level" VNone) (py "Optional") then
        if (days_until <? 1)%Z then 10 else 0
      else 0
  end.

(** The score before the final clamp. *)
Definition raw_priority_score (data : pydict) (importance : pyval)
    (subject : pystr) : Z :=
  let score := 50%Z in
  let subject_lower := lower subject in
  let score :=
    if contains (py "[high priority]") subject_lower
       || contains (py "[urgent]") subject_lower
    then (score + 20)%Z else score in
  let score :=
    if truthy importance && eqb (lower (strip (py_str importance))) (py "high")
    then (score + 20)%Z else score in
  let email_type := dget data "email_type" (VStr []) in
  let action_level := dget data "action_level" (VStr (py "None")) in
  let score :=
    if is_str email_type (py "Notification_System")
       && is_str action_level (py "Mandatory")
    then (score + 15)%Z else (score + type_weight email_type)%Z in
  let score :=
    if any_in spam_keywords (full_context_check data subject)
    then (score - 30)%Z else score in
  let score :=
    if is_marketing_context data subject then (score - 15)%Z else score in
  let score :=
    if any_in closure_keywords (summary_of data) then (score - 20)%Z else score in
  let score :=
    if is_str (dget data "action_level" VNone) (py "Mandatory") then (score + 20)%Z
    else if is_str (dget data "action_level" VNone) (py "Optional") then (score + 10)%Z
    else score in
  let score :=
    if is_str (dget data "decision_level" VNone) (py "Required") then (score + 20)%Z
    else if is_str (dget data "decision_level" VNone) (py "Optional") then (score + 10)%Z
    else score in
  let detected_urgency := dget data "urgency" (VStr (py "Low")) in
  let score :=
    if negb (is_marketing_context data subject)
    then (score + urgency_weight detected_urgency)%Z
    else if val_in detected_urgency [py "Immediate"; py "Short-term"]
         then (score - 10)%Z else score in
  let score :=
    if truthy (dget data "blocks_others" VNone) then (score + 25)%Z else score in
  let score :=
    if truthy (dget data "decision_pending" VNone) then (score + 15)%Z else score in
  let score :=
    if truthy (dget data "deadline" VNone)
       && negb (is_marketing_context data subject)
    then (score + deadline_weight data)%Z else score in
  score.

(** [calculate_priority_score] *)
Definition calculate_priority_score (data : pydict) (importance : pyval)
    (subject : pystr) : Z :=
  Z.max 0 (Z.min 100 (raw_priority_score data importance subject)).

End Score.

(** [pd.to_datetime] on the format the classifier is asked to answer in,
    ["YYYY-MM-DD"]: midnight of that day.  Other values are not covered by
    this instance ([None]). *)
Definition digit_val (c : char) : option Z :=
  if is_09 c then Some (Z.of_N c - 48)%Z else None.

Definition digits2 (a b : char) : option Z :=
  match digit_val a, digit_val b with
  | Some x, Some y => Some (10 * x + y)%Z
  | _, _ => None
  end.

Definition is_leap (y : Z) : bool :=
  ((y mod 4 =? 0) && (negb (y mod 100 =? 0) || (y mod 400 =? 0)))%Z.

Definition days_in_month (y m : Z) : Z :=
  if (m =? 2)%Z then (if is_leap y then 29 else 28)
  else if ((m =? 4) || (m =? 6) || (m =? 9) || (m =? 11))%Z then 30 else 31.

(** Days from 1970-01-01 to the civil date [y-m-d]. *)
Definition days_from_civil (y m d : Z) : Z :=
  let y' := (if m <=? 2 then y - 1 else y)%Z in
  let era := (y' / 400)%Z in
  let yoe := (y' - era * 400)%Z in
  let mp := (if 2 <? m then m - 3 else m + 9)%Z in
  let doy := ((153 * mp + 2) / 5 + d - 1)%Z in
  let doe := (yoe * 365 + yoe / 4 - yoe / 100 + doy)%Z in
  (era * 146097 + doe - 719468)%Z.

Definition to_datetime_iso (v : pyval) : option Z :=
  match v with
  | VStr [y1; y2; y3; y4; h1; m1; m2; h2; d1; d2] =>
      if N.eqb h1 45 && N.eqb h2 45 then
        match digits2 y1 y2, digits2 y3 y4, digits2 m1 m2, digits2 d1 d2 with
        | Some yh, Some yl, Some m, Some d =>
            let y := (100 * yh + yl)%Z in
            if ((1 <=? m) && (m <=? 12) && (1 <=? d) && (d <=? days_in_month y m))%Z
            then Some (days_from_civil y m d * NS_PER_DAY)%Z
            else None
        | _, _, _, _ => None
        end
      else None
  | _ => None
  end.

(** ** Sequence matching ([difflib.SequenceMatcher] with [isjunk=None]) *)

Module Difflib.

(** The indices of [b] that hold [x], in increasing order. *)
Fixpoint indices_of (x : char) (b : pystr) (j : nat) : list nat :=
  match b with
  | [] => []
  | y :: r => if N.eqb x y then j :: indices_of x r (S j) else indices_of x r (S j)
  end.

(** [__chain_b]: with [autojunk], an element of a sequence of 200 or more
    that occurs more than [n // 100 + 1] times is popular and loses its
    entry in [b2j]. *)
Definition popular (b : pystr) (x : char) : bool :=
  (200 <=? length b) && (length b / 100 + 1 <? length (indices_of x b 0)).

(** [b2j.get(x, nothing)] *)
Definition b2j_get (b : pystr) (x : char) : list nat :=
  if popular b x then [] else indices_of x b 0.

(** [j2len.get(j, 0)] *)
Fixpoint j2len_get (j2len : list (nat * nat)) (j : nat) : nat :=
  match j2len with
  | [] => 0
  | (j', k) :: r => if Nat.eqb j j' then k else j2len_get r j
  end.

Definition match_t := (nat * nat * nat)%type.

(** The inner loop of [find_longest_match], over the positions [j] of
    [a[i]] in [b]; [j2len] is the row of [i-1], the state the new row and the
    best block. *)
Fixpoint inner_loop (blo bhi i : nat) (j2len : list (nat * nat)) (js : list nat)
    (st : list (nat * nat) * match_t) : list (nat * nat) * match_t :=
  match js with
  | [] => st
  | j :: rest =>
      if j <? blo then inner_loop blo bhi i j2len rest st
      else if bhi <=? j then st
      else
        let '(newj2len, (besti, bestj, bestsize)) := st in
        let k := (match j with 0 => 0 | S j' => j2len_get j2len j' end) + 1 in
        let best := if bestsize <? k then (i + 1 - k, j + 1 - k, k)
                    else (besti, bestj, bestsize) in
        inner_loop blo bhi i j2len rest ((j, k) :: newj2len, best)
  end.

(** The loop [for i in range(alo, ahi)]. *)
Definition outer_loop (a b : pystr) (alo ahi blo bhi : nat) : match_t :=
  snd (fold_left
         (fun (st : list (nat * nat) * match_t) i =>
            inner_loop blo bhi i (fst st) (b2j_get b (nth i a 0%N)) ([], snd st))
         (seq alo (ahi - alo)) ([], (alo, blo, 0))).

(** The first [while]: extend the block to the left.  The loop runs at most
    [besti] times, which is the fuel it is called with. *)
Fixpoint extend_left (a b : pystr) (alo blo : nat) (fuel : nat) (m : match_t)
    : match_t :=
  let '(besti, bestj, bestsize) := m in
  match fuel with
  | 0 => m
  | S fuel' =>
      if (alo <? besti) && (blo <? bestj)
         && N.eqb (nth (besti - 1) a 0%N) (nth (bestj - 1) b 0%N)
      then extend_left a b alo blo fuel' (besti - 1, bestj - 1, bestsize + 1)
      else m
  end.

(** The second [while]: extend the block to the right, at most
    [ahi - (besti + bestsize)] times. *)
Fixpoint extend_right (a b : pystr) (ahi bhi : nat) (fuel : nat) (m : match_t)
    : match_t :=
  let '(besti, bestj, bestsize) := m in
  match fuel with
  | 0 => m
  | S fuel' =>
      if (besti + bestsize <? ahi) && (bestj + bestsize <? bhi)
         && N.eqb (nth (besti + bestsize) a 0%N) (nth (bestj + bestsize) b 0%N)
      then extend_right a b ahi bhi fuel' (besti, bestj, bestsize + 1)
      else m
  end.

(** [find_longest_match(alo, ahi, blo, bhi)].  Without junk the two loops
    that extend over junk elements never run. *)
Definition find_longest_match (a b : pystr) (alo ahi blo bhi : nat) : match_t :=
  let m := outer_loop a b alo ahi blo bhi in
  let m := extend_left a b alo blo (fst (fst m)) m in
  let '(besti, _, bestsize) := m in
  extend_right a b ahi bhi (ahi - (besti + bestsize)) m.

Definition range_t := (nat * nat * nat * nat)%type.

(** The queue loop of [get_matching_blocks]; the head of the list is the end
    of Python's [queue], where [pop] and [append] work. *)
Fixpoint blocks_loop (a b : pystr) (fuel : nat) (queue : list range_t)
    (matching_blocks : list match_t) : option (list match_t) :=
  match queue with
  | [] => Some matching_blocks
  | (alo, ahi, blo, bhi) :: queue' =>
      match fuel with
      | 0 => None
      | S fuel' =>
          let '(i, j, k) := find_longest_match a b alo ahi blo bhi in
          if Nat.eqb k 0 then blocks_loop a b fuel' queue' matching_blocks
          else
            let q1 := if (alo <? i) && (blo <? j)
                      then (alo, i, blo, j) :: queue' else queue' in
            let q2 := if (i + k <? ahi) && (j + k <? bhi)
                      then (i + k, ahi, j + k, bhi) :: q1 else q1 in
            blocks_loop a b fuel' q2 ((i, j, k) :: matching_blocks)
      end
  end.

(** Every round of the loop takes one range off the queue and puts back
    ranges that together are strictly shorter, so [2 * len(a) + 2] rounds
    are enough (lemma [blocks_loop_total] below). *)
Definition blocks_fuel (a : pystr) : nat := 2 * length a + 2.

Definition matching_blocks (a b : pystr) : option (list match_t) :=
  blocks_loop a b (blocks_fuel a) [(0, length a, 0, length b)] [].

(** [sum(triple[-1] for triple in self.get_matching_blocks())]: sorting the
    blocks, merging adjacent ones and the final dummy block of size 0 leave
    the sum as it is. *)
Definition matches (a b : pystr) : nat :=
  match matching_blocks a b with
  | Some blocks => fold_right (fun m acc => snd m + acc) 0 blocks
  | None => 0
  end.

(** [ratio()], that is [2.0 * matches / length], as an exact fraction.  The
    thresholds it is compared with are 0.88 and 0.80; for sequences shorter
    than 10^14 the floating-point comparison and the exact one agree. *)
Definition ratio (a b : pystr) : Q :=
  match (length a + length b)%nat with
  | O => 1%Q
  | S n => (Z.of_nat (2 * matches a b) # Pos.of_succ_nat n)%Q
  end.

End Difflib.

(** ** Project name unification *)

Definition _GENERIC_TAIL_TOKENS : list pystr :=
  [py "implementation"; py "implementacion"; py "impl"].

Definition _GENERIC_HEAD_TOKENS : list pystr :=
  [py "implementation"; py "implementacion"; py "impl"].

Definition _PROJECT_STOPWORDS : list pystr :=
  [py "de"; py "del"; py "la"; py "el"; py "los"; py "las"; py "of"; py "the";
   py "and"; py "y"].

(** The alternatives of [_PROJECT_PREFIX_RE], in the order the regular
    expression engine tries them ([proj\.?] is greedy). *)
Definition prefix_words : list pystr :=
  [py "proyecto"; py "project"; py "proj."; py "proj"; py "proy."; py "proy"].

(** Match the lower-case ASCII pattern [p] at the start of [s] without
    regard to case; the rest of [s] when it matches.  No character outside
    ASCII folds to a letter of the prefix words. *)
Fixpoint istartswith (p s : pystr) : option pystr :=
  match p, s with
  | [], _ => Some s
  | x :: p', y :: s' => if N.eqb x (ascii_lower y) then istartswith p' s' else None
  | _ :: _, [] => None
  end.

(** One alternative followed by [\s+]: what is left after the match. *)
Definition match_word (w s : pystr) : option pystr :=
  match istartswith w s with
  | Some (c :: r) => if isspace c then Some (lstrip r) else None
  | _ => None
  end.

Fixpoint first_match (ws : list pystr) (s : pystr) : option pystr :=
  match ws with
  | [] => None
  | w :: r =>
      match match_word w s with
      | Some rest => Some rest
      | None => first_match r s
      end
  end.

(** [_PROJECT_PREFIX_RE.match(s)]: the text after the match, if any. *)
Definition _PROJECT_PREFIX_RE_match (s : pystr) : option pystr :=
  first_match prefix_words s.

(** [_PROJECT_PREFIX_RE.sub("", s)]: the pattern is anchored, so at most
    one match is removed. *)
Definition _PROJECT_PREFIX_RE_sub (s : pystr) : pystr :=
  match _PROJECT_PREFIX_RE_match s with
  | Some rest => rest
  | None => s
  end.

Fixpoint dropwhile {A} (p : A -> bool) (l : list A) : list A :=
  match l with
  | x :: r => if p x then dropwhile p r else l
  | [] => []
  end.

(** The outer [while] of [_strip_generic_head_tokens]; every round drops a
    token, so [len(toks)] rounds are enough. *)
Fixpoint head_loop (fuel : nat) (toks : list pystr) : list pystr :=
  match fuel with
  | 0 => toks
  | S fuel' =>
      match toks with
      | t :: r =>
          if str_in t _GENERIC_HEAD_TOKENS
          then head_loop fuel' (dropwhile (fun t => str_in t _PROJECT_STOPWORDS) r)
          else toks
      | [] => []
      end
  end.

Definition _strip_generic_head_tokens (norm_key : pystr) : pystr :=
  match norm_key with
  | [] => []
  | _ => let toks := split norm_key in
         strip (join (head_loop (length toks) toks))
  end.

Definition _strip_generic_tail_tokens (norm_key : pystr) : pystr :=
  match norm_key with
  | [] => []
  | _ => let toks := split norm_key in
         strip (join (rev (dropwhile (fun t => str_in t _GENERIC_TAIL_TOKENS)
                                     (rev toks))))
  end.

(** The class [[^a-z0-9\s]]. *)
Definition not_key_char (c : char) : bool :=
  negb (is_az c || is_09 c || isspace c).

Definition is_empty (s : pystr) : bool :=
  match s with [] => true | _ => false end.

Section Unify.
Context {U : UnicodeDB}.

(** The coercion both normalisers start with. *)
Definition coerce_str (s : pyval) : pystr :=
  match s with
  | VStr x => x
  | VNone => []
  | _ => py_str s
  end.

Definition _proj_norm_key_raw (s : pyval) : pystr :=
  let s := strip (coerce_str s) in
  if is_empty s then [] else
  let s := strip (_PROJECT_PREFIX_RE_sub s) in
  let s := filter (fun ch => negb (combining ch)) (nfkd (lower s)) in
  let s := sub_runs not_key_char false s in
  strip (sub_runs isspace false s).

Definition _proj_norm_key (s : pyval) : pystr :=
  _strip_generic_tail_tokens (_strip_generic_head_tokens (_proj_norm_key_raw s)).

Definition _proj_display_name (s : pyval) : pystr :=
  let s := strip (coerce_str s) in
  if is_empty s then [] else
  let s := strip (_PROJECT_PREFIX_RE_sub s) in
  strip (sub_runs isspace false s).

Definition _is_abbrev_orig (orig : pystr) : bool :=
  let disp := _proj_display_name (VStr orig) in
  negb (is_empty disp) && isalpha disp && isupper disp
  && (1 <=? length disp) && (length disp <=? 3).

(** [r >= 0.88] and [r >= 0.80] *)
Definition ratio_ge (num den : Z) (a b : pystr) : bool :=
  Qle_bool (num # Z.to_pos den) (Difflib.ratio a b).

(** One direction of the abbreviation rule. *)
Definition abbrev_rule (a_key b_key a_orig : pystr) : bool :=
  _is_abbrev_orig a_orig && (length a_key <=? 3)
  && ((startswith (a_key ++ [SP]) b_key
       || (startswith a_key b_key && isalpha b_key && (4 <=? length b_key)))
      || match split b_key with
         | t :: _ => eqb t a_key && (length a_key <=? 4)
         | [] => false
         end).

Definition _projects_similar (a_key b_key a_orig b_orig : pystr) : bool :=
  if is_empty a_key || is_empty b_key then false else
  if eqb a_key b_key then true else
  if ratio_ge 88 100 a_key b_key then true else
  if (contains a_key b_key || contains b_key a_key)
     && (4 <=? Nat.min (length a_key) (length b_key)) then true else
  if (Nat.max (length a_key) (length b_key) <=? 12)
     && eqb (firstn 3 a_key) (firstn 3 b_key) && ratio_ge 80 100 a_key b_key
  then true else
  if abbrev_rule a_key b_key a_orig then true else
  if abbrev_rule b_key a_key b_orig then true else
  false.

(** *** The canonical map *)

(** [counts], in insertion order. *)
Definition counts_t := list (pystr * Z).

Fixpoint counts_find (counts : counts_t) (s : pystr) : option Z :=
  match counts with
  | [] => None
  | (k, n) :: r => if eqb k s then Some n else counts_find r s
  end.

(** [counts.get(s, d)] *)
Definition counts_get (counts : counts_t) (s : pystr) (d : Z) : Z :=
  match counts_find counts s with
  | Some n => n
  | None => d
  end.

(** [counts[s] = counts.get(s, 0) + 1] *)
Fixpoint counts_incr (counts : counts_t) (s : pystr) : counts_t :=
  match counts with
  | [] => [(s, 1%Z)]
  | (k, n) :: r =>
      if eqb k s then (k, (n + 1)%Z) :: r else (k, n) :: counts_incr r s
  end.

Definition null_like (s : pystr) : bool :=
  is_empty s || str_in (lower s) [py "none"; py "nan"; py "null"].

Definition count_step (counts : counts_t) (v : pyval) : counts_t :=
  match v with
  | VNone => counts
  | _ => let s := strip (py_str v) in
         if null_like s then counts else counts_incr counts s
  end.

Definition count_values (project_values : list pyval) : counts_t :=
  fold_left count_step project_values [].

(** The sort key [(-counts[x], len(x))], compared as Python tuples are. *)
Definition sort_key (counts : counts_t) (x : pystr) : Z * Z :=
  ((- counts_get counts x 0)%Z, Z.of_nat (length x)).

Definition key_le (p q : Z * Z) : bool :=
  ((fst p <? fst q) || ((fst p =? fst q) && (snd p <=? snd q)))%Z.

(** [sorted] is stable: a name goes in front of the first name whose key is
    not smaller, the later names of the input having been placed first. *)
Fixpoint insert_sorted (counts : counts_t) (x : pystr) (l : list pystr)
    : list pystr :=
  match l with
  | [] => [x]
  | y :: r =>
      if key_le (sort_key counts x) (sort_key counts y)
      then x :: y :: r else y :: insert_sorted counts x r
  end.

Definition sorted_uniques (counts : counts_t) : list pystr :=
  fold_right (insert_sorted counts) [] (List.map fst counts).

Record cluster := { key : pystr; members : list pystr; repr : pystr }.

(** The inner [for cl in clusters]: the clusters with [orig] appended to the
    first similar one, if there is one. *)
Fixpoint place (k orig : pystr) (clusters : list cluster) : option (list cluster) :=
  match clusters with
  | [] => None
  | cl :: r =>
      if _projects_similar k (key cl) orig (repr cl)
      then Some ({| key := key cl; members := members cl ++ [orig];
                    repr := repr cl |} :: r)
      else option_map (cons cl) (place k orig r)
  end.

Definition cluster_step (clusters : list cluster) (orig : pystr) : list cluster :=
  let k := _proj_norm_key (VStr orig) in
  if is_empty k then clusters else
  match place k orig clusters with
  | Some clusters' => clusters'
  | None => clusters ++ [{| key := k; members := [orig]; repr := orig |}]
  end.

Definition build_clusters (uniques : list pystr) : list cluster :=
  fold_left cluster_step uniques [].

Definition _cand_score (counts : counts_t) (cand : pystr) : Z :=
  let freq := counts_get counts cand 1 in
  let disp := _proj_display_name (VStr cand) in
  let prefix_pen :=
    match _PROJECT_PREFIX_RE_match (strip cand) with
    | Some _ => 1%Z
    | None => 0%Z
    end in
  let length_pen :=
    Z.of_nat (if is_empty disp then length cand else length disp) in
  let raw_key := _proj_norm_key_raw (VStr cand) in
  let stripped_key := _strip_generic_tail_tokens raw_key in
  let tail_pen :=
    if negb (is_empty raw_key) && negb (is_empty stripped_key)
       && negb (eqb raw_key stripped_key) then 1%Z else 0%Z in
  (freq * 100 - prefix_pen * 20 - tail_pen * 25 - length_pen)%Z.

(** [max(members, key=f)] keeps the first of the maximal members. *)
Fixpoint max_from (f : pystr -> Z) (best : pystr) (l : list pystr) : pystr :=
  match l with
  | [] => best
  | x :: r => if (f best <? f x)%Z then max_from f x r else max_from f best r
  end.

(** The label of a cluster whose best member is [best]. *)
Definition canon_of (best : pystr) : pystr :=
  let disp := _proj_display_name (VStr best) in
  let canon := if is_empty disp then strip best else disp in
  if islower canon then capitalize canon else canon.

(** The resulting mapping, in insertion order. *)
Definition mapping_t := list (pystr * pystr).

Fixpoint mapping_find (mapping : mapping_t) (s : pystr) : option pystr :=
  match mapping with
  | [] => None
  | (k, v) :: r => if eqb k s then Some v else mapping_find r s
  end.

(** [mapping[m] = canon] *)
Fixpoint mapping_set (mapping : mapping_t) (m canon : pystr) : mapping_t :=
  match mapping with
  | [] => [(m, canon)]
  | (k, v) :: r =>
      if eqb k m then (k, canon) :: r else (k, v) :: mapping_set r m canon
  end.

(** The body of [for cl in clusters]; [max] of an empty list of members
    would raise, and no cluster is ever empty. *)
Definition label_cluster (counts : counts_t) (mapping : mapping_t) (cl : cluster)
    : mapping_t :=
  match members cl with
  | [] => mapping
  | m0 :: rest =>
      let best := max_from (_cand_score counts) m0 rest in
      let canon := canon_of best in
      fold_left (fun mapping m => mapping_set mapping m canon) (members cl) mapping
  end.

Definition build_project_canonical_map (project_values : list pyval) : mapping_t :=
  let counts := count_values project_values in
  match counts with
  | [] => []
  | _ =>
      let uniques := sorted_uniques counts in
      let clusters := build_clusters uniques in
      fold_left (label_cluster counts) clusters []
  end.

(** [_apply], the rewrite of one cell. *)
Definition _apply (proj_map : mapping_t) (v : pyval) : pyval :=
  match v with
  | VNone => VStr (py "None")
  | _ => let s := strip (py_str v) in
         if null_like s then VStr (py "None")
         else VStr (match mapping_find proj_map s with
                    | Some c => c
                    | None => s
                    end)
  end.

(** [unify_projects_in_df], on the project column of the frame: [None] when
    there is no frame or no such column, which is returned as it is, as is a
    frame without rows. *)
Definition unify_projects_in_df (df : option (list pyval)) : option (list pyval) :=
  match df with
  | None => None
  | Some [] => df
  | Some col =>
      match build_project_canonical_map col with
      | [] => df
      | proj_map => Some (List.map (_apply proj_map) col)
      end
  end.

End Unify.

(** ** Shapes of normalised keys *)

(** The characters a raw key is made of. *)
Definition key_char (c : char) : bool := is_az c || is_09 c.

(** White space is normalised: every white-space character is a single
    space that does not follow another one ([prev_sp]). *)
Fixpoint norm_ws (prev_sp : bool) (s : pystr) : bool :=
  match s with
  | [] => true
  | c :: r =>
      if isspace c then N.eqb c SP && negb prev_sp && norm_ws true r
      else norm_ws false r
  end.

(** The characters of a normalised key: [a-z0-9] and the space. *)
Definition okc (c : char) : Prop := key_char c = true \/ c = SP.

(** A normalised key: key characters separated by single spaces. *)
Definition clean_key (k : pystr) : Prop :=
  Forall okc k /\ norm_ws false k = true /\ strip k = k.

(** [x] is a member of one of the clusters. *)
Definition covered (clusters : list cluster) (x : pystr) : Prop :=
  exists cl, In cl clusters /\ In x (members cl).

(** ** Example data *)


(** The batch of the specification's example: four spellings of one
    project, seen 3, 2, 1 and 1 times. *)
Definition alpha_batch : list pyval :=
  [VStr (py "Proyecto Alpha"); VStr (py "Proyecto Alpha"); VStr (py "Proyecto Alpha");
   VStr (py "ALPHA"); VStr (py "ALPHA");
   VStr (py "proyecto alpha");
   VStr (py "Alpha Implementation")].

(** The same observations in another order. *)
Definition alpha_batch_mixed : list pyval :=
  [VStr (py "Alpha Implementation"); VStr (py "ALPHA"); VStr (py "Proyecto Alpha");
   VStr (py "proyecto alpha"); VStr (py "Proyecto Alpha"); VStr (py "ALPHA");
   VStr (py "Proyecto Alpha")].

(** The values [build_project_canonical_map] and [_apply] set aside: [None],
    and what is empty or ["none"], ["nan"], ["null"] once trimmed. *)
Definition is_null_like_value {U : UnicodeDB} (v : pyval) : bool :=
  match v with
  | VNone => true
  | _ => null_like (strip (py_str v))
  end.

(** ** Names that are not similar *)

Section Stability.
Context {U : UnicodeDB}.

(** The distinct names of a column: the keys of [counts]. *)
Definition names_of (col : list pyval) : list pystr :=
  List.map fst (count_values col).

(** The similarity test the clustering loop makes for the name [s] against
    a cluster that [t] opened. *)
Definition similar_names (s t : pystr) : bool :=
  _projects_similar (_proj_norm_key (VStr s)) (_proj_norm_key (VStr t)) s t.

(** No two different names are similar, in either order. *)
Definition names_dissimilar (col : list pyval) : bool :=
  forallb (fun s => forallb (fun t => eqb s t || negb (similar_names s t))
                            (names_of col))
          (names_of col).

(** The cluster a name opens. *)
Definition singleton (o : pystr) : cluster :=
  {| key := _proj_norm_key (VStr o); members := [o]; repr := o |}.

(** The names that have a key. *)
Definition keyed (l : list pystr) : list pystr :=
  filter (fun o => negb (is_empty (_proj_norm_key (VStr o)))) l.

End Stability.

(** Every entry of the map sends a name to itself. *)
Definition identity_map (m : mapping_t) : bool :=
  forallb (fun p => eqb (snd p) (fst p)) m.

(** A batch with two projects. *)
Definition two_projects_batch : list pyval :=
  alpha_batch ++
  [VStr (py "Zeta-2"); VStr (py " Zeta-2 "); VStr (py "proyecto zeta 2");
   VNone; VStr (py "nan"); VStr (py "!!!")].

(** ** Bounds of the matching blocks *)

Module DifflibSpec.
Import Difflib.

(** Every length [k] recorded in a row for a position [j] is at most [n],
    and the match of that length ending at [j] starts at [blo] or later. *)
Definition row_bound (blo n : nat) (j2len : list (nat * nat)) : Prop :=
  Forall (fun p => snd p <= n /\ snd p <= fst p + 1 - blo) j2len.

(** The block lies in [a[alo:ahi]] and in [b[blo:bhi]]. *)
Definition best_ok (alo ahi blo bhi : nat) (m : match_t) : Prop :=
  let '(i, j, k) := m in
  alo <= i /\ i + k <= ahi /\ blo <= j /\ j + k <= bhi.

(** The state of [find_longest_match] before row [i]. *)
Definition row_inv (alo blo bhi i : nat) (st : list (nat * nat) * match_t)
    : Prop :=
  row_bound blo (i - alo) (fst st) /\ best_ok alo i blo bhi (snd st).

(** A range of the queue is well formed. *)
Definition range_ok (r : range_t) : Prop :=
  let '(alo, ahi, blo, bhi) := r in alo <= ahi /\ blo <= bhi.

(** What is left to do for a queue: it decreases with every round. *)
Fixpoint queue_measure (queue : list range_t) : nat :=
  match queue with
  | [] => 0
  | (alo, ahi, _, _) :: q => 2 * (ahi - alo) + 1 + queue_measure q
  end.

End DifflibSpec.

(** ** Tiers *)

(** The three tiers, ranked. *)
Definition TIERS : list pystr := [py "High"; py "Medium"; py "Low"].

Definition tier_rank (v : pyval) : nat :=
  if is_str v (py "High") then 2
  else if is_str v (py "Medium") then 1
  else 0.

(** The sender is trusted in the sense of [map_to_priority]: a trusted
    domain occurs in the lower-cased sender. *)
Definition cascade_trusted {U : UnicodeDB} (sender : pystr) : bool :=
  existsb (fun d => contains d (lower sender)) TRUSTED_SENDER_DOMAINS.

(** A request for approval that blocks others. *)
Definition approval_bundle : pydict :=
  [("email_type"%string, VStr (py "Approval_Request"));
   ("action_level"%string, VStr (py "Mandatory"));
   ("urgency"%string, VStr (py "Immediate"));
   ("blocks_others"%string, VBool true);
   ("summary"%string, VStr (py "Thanks, task completed; unsubscribe below"))].

(** ** Clusters as a whole *)

(** All the names the clusters hold, cluster after cluster. *)
Definition all_members (clusters : list cluster) : list pystr :=
  concat (List.map members clusters).

(** The label [label_cluster] gives the members of a cluster. *)
Definition cluster_label {U : UnicodeDB} (counts : counts_t) (cl : cluster)
    : pystr :=
  match members cl with
  | [] => []
  | m0 :: rest => canon_of (max_from (_cand_score counts) m0 rest)
  end.

(** A column of values that are all set aside. *)
Definition null_like_column : list pyval :=
  [VNone; VStr []; VStr (py " NaN "); VStr (py "null"); VStr (py "None")].

(** ** Tokens *)

(** A token as [str.split] gives it: not empty and free of white space. *)
Definition tok_ok (t : pystr) : Prop :=
  t <> [] /\ Forall (fun c => isspace c = false) t.

(** ** The sender's domain ([email_processing.sender_domain]) *)

Definition AT : char := 64%N.
Definition DOT : char := 46%N.

(** The classes [[A-Za-z]] and [[A-Za-z0-9.-]]. *)
Definition is_letter (c : char) : bool := is_az c || is_AZ c.
Definition dom_char (c : char) : bool :=
  is_letter c || is_09 c || N.eqb c DOT || N.eqb c 45.

Fixpoint take_while (p : char -> bool) (s : pystr) : pystr :=
  match s with
  | c :: r => if p c then c :: take_while p r else []
  | [] => []
  end.

(** [\.[A-Za-z]{2,}] at the head of [s]: the dot and the longest run of
    letters after it. *)
Definition match_tld (s : pystr) : option pystr :=
  match s with
  | c :: r =>
      if N.eqb c DOT
      then let l := take_while is_letter r in
           if 2 <=? length l then Some (c :: l) else None
      else None
  | [] => None
  end.

(** [[A-Za-z0-9.-]*\.[A-Za-z]{2,}] at the head of [s]: the class is repeated
    as often as a match allows, one character is given back at a time. *)
Fixpoint match_rest (s : pystr) : option pystr :=
  match s with
  | [] => None
  | c :: r =>
      match (if dom_char c then match_rest r else None) with
      | Some m => Some (c :: m)
      | None => match_tld s
      end
  end.

(** [[A-Za-z0-9.-]+\.[A-Za-z]{2,}] at the head of [s]. *)
Definition match_domain (s : pystr) : option pystr :=
  match s with
  | c :: r =>
      if dom_char c
      then match match_rest r with Some m => Some (c :: m) | None => None end
      else None
  | [] => None
  end.

(** [re.search(r"@([A-Za-z0-9.-]+\.[A-Za-z]{2,})", addr)]: group 1 of the
    leftmost match. *)
Fixpoint search_domain (addr : pystr) : option pystr :=
  match addr with
  | [] => None
  | c :: r =>
      match (if N.eqb c AT then match_domain r else None) with
      | Some m => Some m
      | None => search_domain r
      end
  end.

Definition sender_domain {U : UnicodeDB} (addr : pystr) : pystr :=
  match search_domain addr with
  | Some m => lower m
  | None => []
  end.

(** ** Spam and phishing detection ([security.py]) *)

Module Security.

Definition phishing_keywords : list pystr :=
  [py "verify"; py "verification"; py "password";
   py "contrase" ++ [241%N] ++ py "a"; py "reset"; py "restablecer";
   py "account locked"; py "suspended"; py "unusual activity";
   py "click here"; py "invoice"; py "factura"; py "payment";
   py "wire transfer"; py "gift card"; py "crypto"; py "confirm identity";
   py "act now"].

Definition spam_keywords : list pystr :=
  [py "unsubscribe"; py "you have won"; py "congratulations"; py "buy now";
   py "free money"].

Definition urgent : list pystr :=
  [py "urgent"; py "urgente"; py "asap"; py "immediately"; py "critical";
   py "act now"].

Definition spam_senders : list pystr :=
  [py "regaloresponsable"; py "noreply"; py "no-reply"; py "newsletter"].

Definition gift_keywords : list pystr :=
  [py "cesta navidad"; py "obsequio"; py "regalo"; py "gift card";
   py "lotes navidad"].

Definition work_tools : list pystr :=
  [py "quip"; py "jira"; py "confluence"; py "slack"; py "trello";
   py "teams"; py "planner"; py "sharepoint"].

Definition travel_keywords : list pystr :=
  [py "flight"; py "vuelo"; py "boarding"; py "embarque"; py "gate";
   py "puerta"; py "ticket"; py "billete"; py "renfe"; py "iberia"].

Definition offer_words : list pystr :=
  [py "sin coste"; py "gratis"; py "free"; py "descuento"; py "oferta";
   py "opcional"].

Definition spam_markers : list pystr :=
  [py "unsubscribe"; py "newsletter"; py "promotional"; py "marketing";
   py "no-reply"; py "noreply"; py "you have won"; py "buy now"].

(** [sum(1 for k in kws if k in s)] *)
Definition count_in (kws : list pystr) (s : pystr) : Z :=
  Z.of_nat (length (filter (fun k => contains k s) kws)).

(** The occurrences of a non-empty [needle] in [hay] that do not overlap,
    from the left: [hay.count(needle)], and [len(re.findall(needle, hay))]
    for a pattern without operators.  [skip] characters are still part of
    the occurrence found last. *)
Fixpoint count_from (needle : pystr) (skip : nat) (hay : pystr) : nat :=
  match hay with
  | [] => 0
  | _ :: r =>
      match skip with
      | S k => count_from needle k r
      | O =>
          if startswith needle hay
          then S (count_from needle (length needle - 1) r)
          else count_from needle 0 r
      end
  end.

Definition count_sub (needle hay : pystr) : Z :=
  Z.of_nat (count_from needle 0 hay).

(** [len(sender_addr.split("@")[0])] *)
Definition local_part_length (sender_addr : pystr) : Z :=
  Z.of_nat (length (take_while (fun c => negb (N.eqb c AT)) sender_addr)).

Section Detection.
Context {U : UnicodeDB}.

Definition phishing_score (subject body sender_addr : pystr) : Z :=
  let s := lower (subject ++ SP :: body ++ SP :: sender_addr) in
  let score := 0%Z in
  let score := if any_in phishing_keywords s then (score + 3)%Z else score in
  let score := if any_in spam_keywords s then (score + 2)%Z else score in
  let urgent_count := count_in urgent s in
  let score :=
    if (2 <=? urgent_count)%Z then (score + 3)%Z
    else if (urgent_count =? 1)%Z then (score + 1)%Z
    else score in
  let url_count := count_sub (py "[URL]") s in
  let score :=
    if (5 <=? url_count)%Z then (score + 4)%Z
    else if (3 <=? url_count)%Z then (score + 3)%Z
    else score in
  let score :=
    if contains [AT] sender_addr && (20 <? local_part_length sender_addr)%Z
    then (score + 1)%Z
    else score in
  Z.min score 20.

Definition is_phishing (subject body sender_addr : pystr) : bool :=
  let score := phishing_score subject body sender_addr in
  let dom := sender_domain sender_addr in
  if (10 <=? score)%Z then true
  else if (7 <=? score)%Z && negb (is_empty dom)
          && negb (str_in dom TRUSTED_SENDER_DOMAINS)
  then true
  else false.

Definition is_spam (subject body sender_addr : pystr) : bool :=
  let dom := sender_domain sender_addr in
  if str_in dom TRUSTED_SENDER_DOMAINS then false
  else
    let s := lower (subject ++ SP :: body) in
    let sender_lower := lower sender_addr in
    if any_in spam_senders sender_lower then true
    else if any_in gift_keywords s then true
    else if existsb (fun tool => contains tool sender_lower || contains tool s)
              work_tools then false
    else if any_in travel_keywords s then false
    else if contains (py "sandoz") sender_lower
            && (contains (py "digest") s || contains (py "newsletter") s)
    then false
    else
      let is_marketing_training :=
        (contains (py "training") s || contains (py "curso") s)
        && any_in offer_words s
        && negb (contains (py "csod.com") sender_lower) in
      if is_marketing_training then true
      else if (2 <=? count_sub (py "unsubscribe") s)%Z then true
      else if (2 <=? count_in spam_markers s)%Z then true
      else false.

End Detection.

End Security.

(** What a match looks like: a host part in the class, a dot, and two or
    more letters; and it is a prefix of the text matched. *)
Definition domain_shape (hostless : bool) (s m : pystr) : Prop :=
  exists host tld post,
    m = host ++ DOT :: tld /\ s = m ++ post
    /\ (hostless = false -> host <> [])
    /\ forallb dom_char host = true
    /\ forallb is_letter tld = true /\ 2 <= length tld.

(** The class [[a-z0-9.-]]: what is left of [[A-Za-z0-9.-]] in lower case. *)
Definition low_dom_char (c : char) : bool :=
  is_az c || is_09 c || N.eqb c DOT || N.eqb c 45.

(** A message with a phishing keyword, two urgency words and a spam keyword
    from an unknown domain. *)
Definition lure_subject : pystr := py "URGENT: verify your account".
Definition lure_body : pystr :=
  py "Act immediately or lose access. Unsubscribe here.".
Definition lure_sender : pystr := py "support@Secure-Login.example.ORG".

(** ** First fit *)

(** What [_projects_similar] reads of a cluster: its key and its first
    member. *)
Definition sig (cl : cluster) : pystr * pystr := (key cl, repr cl).

(** [m] is similar to the cluster with signature [kr]. *)
Definition sim_to {U : UnicodeDB} (m : pystr) (kr : pystr * pystr) : bool :=
  _projects_similar (_proj_norm_key (VStr m)) (fst kr) m (snd kr).

(** Every member sits in the first cluster it is similar to, [prev] being
    the signatures of the clusters in front. *)
Fixpoint first_fit {U : UnicodeDB} (prev : list (pystr * pystr))
    (clusters : list cluster) : Prop :=
  match clusters with
  | [] => True
  | cl :: r =>
      (forall m, In m (members cl) ->
                 sim_to m (sig cl) = true /\ existsb (sim_to m) prev = false)
      /\ first_fit (prev ++ [sig cl]) r
  end.

(** An abbreviation next to its spelling in lower case, and the name that
    attracts the abbreviation. *)
Definition abbrev_batch : list pyval :=
  [VStr (py "AB cd"); VStr (py "AB cd"); VStr (py "AB"); VStr (py "ab")].

(** ** Bundles with lists and dicts *)

(** The classifier's answer goes through [json.loads] and reaches the
    scorer unchecked: a field may hold a list or a dict where a string is
    expected.  This is the scorer over such bundles, with the exception it
    can raise. *)
Module Json.

(** A value [json.loads] returns: a scalar, a list or a dict. *)
#[local] Unset Elimination Schemes.
Inductive jval :=
| JScalar (v : pyval)
| JArray (items : list jval)
| JObject (fields : list (pystr * jval)).
#[local] Set Elimination Schemes.

(** The analysis dictionary [data]. *)
Definition jdict := list (string * jval).

Fixpoint jfind (data : jdict) (k : string) : option jval :=
  match data with
  | [] => None
  | (k', v) :: r => if String.eqb k k' then Some v else jfind r k
  end.

(** [data.get(k, default)] *)
Definition jget (data : jdict) (k : string) (default : jval) : jval :=
  match jfind data k with
  | Some v => v
  | None => default
  end.

(** The exception a call may raise, and what a call comes to. *)
Inductive exn := TypeError.

Inductive outcome (A : Type) :=
| Returns (a : A)
| Raises (e : exn).

Arguments Returns {A} a.
Arguments Raises {A} e.

Definition bind {A B : Type} (m : outcome A) (k : A -> outcome B) : outcome B :=
  match m with
  | Returns a => k a
  | Raises e => Raises e
  end.

(** Python's truth value: an empty list or dict is false. *)
Definition jtruthy (j : jval) : bool :=
  match j with
  | JScalar v => truthy v
  | JArray items => match items with [] => false | _ => true end
  | JObject fields => match fields with [] => false | _ => true end
  end.

(** [j == "literal"]: a list or a dict equals no string. *)
Definition jis_str (j : jval) (s : pystr) : bool :=
  match j with
  | JScalar v => is_str v s
  | _ => false
  end.

(** [j in ["a", "b", ...]] *)
Definition jval_in (j : jval) (l : list pystr) : bool :=
  existsb (jis_str j) l.

(** [hash(j)] succeeds: lists and dicts are unhashable. *)
Definition hashable (j : jval) : bool :=
  match j with
  | JScalar _ => true
  | _ => false
  end.

(** [weights.get(j, 0)] for a dict [weights] with string keys, [w] being
    the lookup of a scalar: the key is hashed first, and hashing a list or
    a dict raises [TypeError]. *)
Definition weight_get (w : pyval -> Z) (j : jval) : outcome Z :=
  match j with
  | JScalar v => Returns (w v)
  | _ => Raises TypeError
  end.

Section Score.
Context {U : UnicodeDB}.

(** [str(j)] of a list or a dict, its [repr]. *)
Variable container_str : jval -> pystr.

(** [pd.to_datetime], as for scalars: [None] when the [try] block raises
    before [score += deadline_weight], whatever the exception. *)
Variable to_datetime : jval -> option Z.

(** [pd.Timestamp.now()], in nanoseconds since the epoch. *)
Variable now : Z.

(** [str(j)] *)
Definition jstr (j : jval) : pystr :=
  match j with
  | JScalar v => py_str v
  | _ => container_str j
  end.

Definition summary_of (data : jdict) : pystr :=
  lower (jstr (jget data "summary" (JScalar (VStr [])))).

Definition full_context_check (data : jdict) (subject : pystr) : pystr :=
  lower subject ++ SP :: summary_of data ++
  SP :: lower (jstr (jget data "project" (JScalar (VStr [])))).

Definition is_marketing_context (data : jdict) (subject : pystr) : bool :=
  any_in marketing_triggers (full_context_check data subject).

(** The weight the deadline adds, from the body of the [try] block. *)
Definition deadline_weight (data : jdict) : Z :=
  match to_datetime (jget data "deadline" (JScalar VNone)) with
  | None => 0
  | Some deadline =>
      let days_until := ((deadline - now) / NS_PER_DAY)%Z in
      if jis_str (jget data "action_level" (JScalar VNone)) (py "Mandatory") then
        if (days_until <? 1)%Z then 30
        else if (days_until <? 3)%Z then 20
        else if (days_until <? 7)%Z then 10
        else 0
      else if jis_str (jget data "action_level" (JScalar VNone)) (py "Optional") then
        if (days_until <? 1)%Z then 10 else 0
      else 0
  end.

(** [calculate_priority_score]; the two lookups in the weight tables are
    the statements outside the [try] block that can raise. *)
Definition calculate_priority_score (data : jdict) (importance : pyval)
    (subject : pystr) : outcome Z :=
  let score := 50%Z in
  let subject_lower := lower subject in
  let score :=
    if contains (py "[high priority]") subject_lower
       || contains (py "[urgent]") subject_lower
    then (score + 20)%Z else score in
  let score :=
    if truthy importance && eqb (lower (strip (py_str importance))) (py "high")
    then (score + 20)%Z else score in
  let email_type := jget data "email_type" (JScalar (VStr [])) in
  let action_level := jget data "action_level" (JScalar (VStr (py "None"))) in
  bind
    (if jis_str email_type (py "Notification_System")
        && jis_str action_level (py "Mandatory")
     then Returns (score + 15)%Z
     else bind (weight_get type_weight email_type)
            (fun weight => Returns (score + weight)%Z))
    (fun score =>
  let score :=
    if any_in spam_keywords (full_context_check data subject)
    then (score - 30)%Z else score in
  let score :=
    if is_marketing_context data subject then (score - 15)%Z else score in
  let score :=
    if any_in closure_keywords (summary_of data) then (score - 20)%Z else score in
  let score :=
    if jis_str (jget data "action_level" (JScalar VNone)) (py "Mandatory")
    then (score + 20)%Z
    else if jis_str (jget data "action_level" (JScalar VNone)) (py "Optional")
    then (score + 10)%Z
    else score in
  let score :=
    if jis_str (jget data "decision_level" (JScalar VNone)) (py "Required")
    then (score + 20)%Z
    else if jis_str (jget data "decision_level" (JScalar VNone)) (py "Optional")
    then (score + 10)%Z
    else score in
  let detected_urgency := jget data "urgency" (JScalar (VStr (py "Low"))) in
  bind
    (if negb (is_marketing_context data subject)
     then bind (weight_get urgency_weight detected_urgency)
            (fun weight => Returns (score + weight)%Z)
     else Returns (if jval_in detected_urgency [py "Immediate"; py "Short-term"]
                   then (score - 10)%Z else score))
    (fun score =>
  let score :=
    if jtruthy (jget data "blocks_others" (JScalar VNone))
    then (score + 25)%Z else score in
  let score :=
    if jtruthy (jget data "decision_pending" (JScalar VNone))
    then (score + 15)%Z else score in
  let score :=
    if jtruthy (jget data "deadline" (JScalar VNone))
       && negb (is_marketing_context data subject)
    then (score + deadline_weight data)%Z else score in
  Returns (Z.max 0 (Z.min 100 score)))).

End Score.

(** A bundle of scalars, as a bundle of JSON values. *)
Definition lift (data : pydict) : jdict :=
  List.map (fun p => (fst p, JScalar (snd p))) data.

(** An answer in which the classifier lists the type. *)
Definition listed_type_bundle : jdict :=
  [("email_type"%string, JArray [JScalar (VStr (py "Meeting"))]);
   ("action_level"%string, JScalar (VStr (py "Mandatory")));
   ("urgency"%string, JScalar (VStr (py "Immediate")))].


End Json.

(** The batch of a second failure of idempotence: no prefix word, two
    labels of which one contains the other. *)
Definition beta_batch : list pyval :=
  [VStr (py "Beta Impl"); VStr (py "Beta Impl");
   VStr (py "Beta Gamma Delta"); VStr (py "Beta Gamma Delta");
   VStr (py "Gamma Delta")].

(** * Properties *)

(** ** The priority cascade *)

(** C1.  Whenever the phishing flag or the spam flag is set,
    [map_to_priority] returns ["Low"], whatever the other arguments are:
    a forced priority and the VIP list are not even looked at. *)
Theorem security_flags_give_low :
  forall (U : UnicodeDB) sender subject body email_type action_level
         decision_level urgency blocks_others score importance user_config
         forced_priority is_phishing is_spam,
    is_phishing || is_spam = true ->
    map_to_priority sender subject body email_type action_level decision_level
      urgency blocks_others score importance user_config forced_priority
      is_phishing is_spam = VStr (py "Low").
Proof.
  intros U sender subject body et al dl ur bo sc imp uc fp ph sp H.
  unfold map_to_priority. rewrite H. reflexivity.
Qed.

Lemma security_flags_give_low_witness :
  map_to_priority (U := ascii_only) (py "ceo@sandoz.com") (py "hello") (py "body")
    (VStr (py "Approval_Request")) (VStr (py "Mandatory")) (VStr (py "Required"))
    (VStr (py "Immediate")) (VBool true) 100 (VStr (py "high"))
    (Some {| vip_senders := [py "ceo@sandoz.com"] |})
    (VStr (py "High")) true false = VStr (py "Low").
Proof.
  apply (@security_flags_give_low ascii_only). reflexivity.
Defined.

(** A valid forced priority is a non-empty string. *)
Lemma valid_forced_truthy (forced_priority : pyval) :
  val_in forced_priority [py "High"; py "Medium"; py "Low"] = true ->
  truthy forced_priority = true.
Proof.
  destruct forced_priority as [| b | z | s]; simpl; try discriminate.
  destruct s; simpl; [discriminate | reflexivity].
Qed.

(** C3, as stated, fails: the VIP rule is tried before the forced priority,
    so a message from a VIP sender is ["High"] although ["Low"] is forced
    and no security flag is set. *)
Lemma forced_priority_loses_to_vip :
  map_to_priority (U := ascii_only) (py "boss@corp.com") (py "weekly digest")
    (py "nothing to do") (VStr (py "FYI_Informational")) (VStr (py "None"))
    (VStr (py "None")) (VStr (py "Low")) (VBool false) 0 VNone
    (Some {| vip_senders := [py "boss"] |}) (VStr (py "Low")) false false
  = VStr (py "High")
  /\ VStr (py "High") <> VStr (py "Low").
Proof.
  split; [vm_compute; reflexivity | discriminate].
Qed.

(** C3, amended.  When neither security flag is set, the sender matches no
    entry of the VIP list and [forced_priority] is one of ["High"],
    ["Medium"], ["Low"], [map_to_priority] returns [forced_priority] itself,
    whatever the score and the other arguments are. *)
Theorem forced_priority_verbatim :
  forall (U : UnicodeDB) sender subject body email_type action_level
         decision_level urgency blocks_others score importance user_config
         forced_priority,
    check_user_overrides (subject ++ SP :: body) sender
      (config_vips user_config) = false ->
    val_in forced_priority [py "High"; py "Medium"; py "Low"] = true ->
    map_to_priority sender subject body email_type action_level decision_level
      urgency blocks_others score importance user_config forced_priority
      false false = forced_priority.
Proof.
  intros U sender subject body et al dl ur bo sc imp uc fp Hvip Hval.
  unfold map_to_priority.
  rewrite Hvip, Hval, (valid_forced_truthy _ Hval). reflexivity.
Qed.

Lemma forced_priority_verbatim_witness :
  map_to_priority (U := ascii_only) (py "news@shop.example") (py "newsletter")
    (py "unsubscribe here") (VStr (py "FYI_Informational")) (VStr (py "None"))
    (VStr (py "None")) (VStr (py "Low")) (VBool false) 0 VNone
    (Some {| vip_senders := [py "boss"] |}) (VStr (py "High")) false false
  = VStr (py "High").
Proof.
  apply (@forced_priority_verbatim ascii_only); vm_compute; reflexivity.
Defined.

(** ** The priority score *)

(** On a bundle of scalars, for every importance flag and subject (and
    every date parser and clock), [calculate_priority_score] yields an
    integer between 0 and 100; fields outside the enumerations weigh 0. *)
Lemma score_in_range :
  forall (U : UnicodeDB) to_datetime now data importance subject,
    (0 <= calculate_priority_score to_datetime now data importance subject <= 100)%Z.
Proof.
  intros. unfold calculate_priority_score. lia.
Qed.

(** Values outside the enumerations get the default weight. *)
Lemma unknown_type_weighs_nothing (email_type : pyval) :
  val_in email_type
    [py "Approval_Request"; py "Decision_Required"; py "External_Request";
     py "Action_Request"; py "Meeting"; py "Report_Update";
     py "FYI_Informational"; py "Notification_System"] = false ->
  type_weight email_type = 0%Z.
Proof.
  unfold val_in, type_weight. cbn [existsb]. intros H.
  repeat (apply orb_false_iff in H; destruct H as [-> H]). reflexivity.
Qed.

Lemma unknown_urgency_weighs_nothing (urgency : pyval) :
  val_in urgency [py "Immediate"; py "Short-term"; py "Medium-term"; py "Low"]
  = false ->
  urgency_weight urgency = 0%Z.
Proof.
  unfold val_in, urgency_weight. cbn [existsb]. intros H.
  repeat (apply orb_false_iff in H; destruct H as [-> H]). reflexivity.
Qed.




(** ** Project name unification *)

(** C7.  On the batch with "Proyecto Alpha" three times, "ALPHA" twice,
    "proyecto alpha" and "Alpha Implementation" once, the four names form
    one cluster and each of them is mapped to the label "Alpha". *)
Theorem alpha_batch_collapses :
  forall U : UnicodeDB,
    build_clusters (sorted_uniques (count_values alpha_batch))
    = [{| key := py "alpha";
          members := [py "Proyecto Alpha"; py "ALPHA"; py "proyecto alpha";
                      py "Alpha Implementation"];
          repr := py "Proyecto Alpha" |}]
    /\ count_values alpha_batch
       = [(py "Proyecto Alpha", 3%Z); (py "ALPHA", 2%Z);
          (py "proyecto alpha", 1%Z); (py "Alpha Implementation", 1%Z)]
    /\ build_project_canonical_map alpha_batch
       = [(py "Proyecto Alpha", py "Alpha"); (py "ALPHA", py "Alpha");
          (py "proyecto alpha", py "Alpha");
          (py "Alpha Implementation", py "Alpha")].
Proof.
  intros U. repeat split; vm_compute; reflexivity.
Qed.

(** The order in which the observations arrive does not matter here. *)
Lemma alpha_batch_mixed_collapses :
  forall U : UnicodeDB,
    build_project_canonical_map alpha_batch_mixed
    = [(py "Proyecto Alpha", py "Alpha"); (py "ALPHA", py "Alpha");
       (py "proyecto alpha", py "Alpha");
       (py "Alpha Implementation", py "Alpha")].
Proof.
  intros U. vm_compute. reflexivity.
Qed.

(** C10: the similarity decision depends on the order of its arguments.
    [SequenceMatcher.ratio] finds 6 matching characters from "aabaaba" to
    "aabbaaa" (ratio 6/7, enough for the short-name rule) and 5 the other
    way round (5/7). *)
Theorem projects_similar_not_symmetric :
  forall U : UnicodeDB,
    _projects_similar (py "aabaaba") (py "aabbaaa") (py "aabaaba") (py "aabbaaa")
    = true
    /\ _projects_similar (py "aabbaaa") (py "aabaaba") (py "aabbaaa") (py "aabaaba")
       = false
    /\ _proj_norm_key (VStr (py "aabaaba")) = py "aabaaba"
    /\ _proj_norm_key (VStr (py "aabbaaa")) = py "aabbaaa"
    /\ Difflib.matches (py "aabaaba") (py "aabbaaa") = 6
    /\ Difflib.matches (py "aabbaaa") (py "aabaaba") = 5.
Proof.
  intros U. repeat split; vm_compute; reflexivity.
Qed.

(** C9, as stated, fails: once the map is not empty, an empty cell, a
    missing one and a null-like one are all rewritten to the string
    "None". *)
Lemma null_like_values_are_rewritten :
  unify_projects_in_df (U := ascii_only)
    (Some [VStr (py "Alpha"); VStr []; VNone; VStr (py "nan")])
  = Some [VStr (py "Alpha"); VStr (py "None"); VStr (py "None"); VStr (py "None")]
  /\ VStr (py "None") <> VStr []
  /\ VStr (py "None") <> VNone
  /\ VStr (py "None") <> VStr (py "nan").
Proof.
  split; [vm_compute; reflexivity | repeat split; discriminate].
Qed.

Lemma apply_null_like (U : UnicodeDB) (proj_map : mapping_t) (v : pyval) :
  is_null_like_value v = true -> _apply proj_map v = VStr (py "None").
Proof.
  unfold is_null_like_value, _apply.
  destruct v; intros H; try reflexivity; rewrite H; reflexivity.
Qed.

(** A value that is not null-like and has no entry is replaced by its
    trimmed text. *)
Lemma apply_unmapped (U : UnicodeDB) (proj_map : mapping_t) (v : pyval) :
  is_null_like_value v = false ->
  mapping_find proj_map (strip (py_str v)) = None ->
  _apply proj_map v = VStr (strip (py_str v)).
Proof.
  unfold is_null_like_value, _apply.
  destruct v; intros H Hf; try discriminate; rewrite H, Hf; reflexivity.
Qed.

(** With an empty map the column is returned as it is. *)
Lemma unify_empty_map (U : UnicodeDB) (col : list pyval) :
  build_project_canonical_map col = [] ->
  unify_projects_in_df (Some col) = Some col.
Proof.
  intros H. unfold unify_projects_in_df. destruct col; [reflexivity |].
  rewrite H. reflexivity.
Qed.

Lemma unify_nonempty_map (U : UnicodeDB) (col : list pyval) :
  build_project_canonical_map col <> [] ->
  unify_projects_in_df (Some col)
  = Some (List.map (_apply (build_project_canonical_map col)) col).
Proof.
  intros H. unfold unify_projects_in_df. destruct col as [| v col].
  - exfalso. apply H. reflexivity.
  - destruct (build_project_canonical_map (v :: col)); [congruence | reflexivity].
Qed.

(** C9, amended.  When the canonical map of a column is not empty, the
    rewrite puts the string "None" in every cell whose value is absent or
    null-like. *)
Theorem null_like_cells_become_None :
  forall (U : UnicodeDB) (col : list pyval) (i : nat) (v : pyval),
    build_project_canonical_map col <> [] ->
    nth_error col i = Some v ->
    is_null_like_value v = true ->
    exists col',
      unify_projects_in_df (Some col) = Some col'
      /\ nth_error col' i = Some (VStr (py "None")).
Proof.
  intros U col i v Hmap Hi Hnull.
  exists (List.map (_apply (build_project_canonical_map col)) col). split.
  - apply unify_nonempty_map, Hmap.
  - rewrite nth_error_map, Hi. cbn. f_equal. apply apply_null_like, Hnull.
Qed.

Lemma null_like_cells_become_None_witness :
  exists col',
    unify_projects_in_df (U := ascii_only) (Some [VStr (py "Alpha"); VStr []])
    = Some col'
    /\ nth_error col' 1 = Some (VStr (py "None")).
Proof.
  apply (@null_like_cells_become_None ascii_only
           [VStr (py "Alpha"); VStr []] 1 (VStr [])).
  - vm_compute. discriminate.
  - reflexivity.
  - reflexivity.
Defined.

(** ** The key normaliser *)

Lemma isspace_SP : isspace SP = true.
Proof. reflexivity. Qed.

Lemma key_char_cases (c : char) :
  key_char c = true -> (97 <= c <= 122)%N \/ (48 <= c <= 57)%N.
Proof.
  unfold key_char, is_az, is_09, in_range.
  rewrite orb_true_iff, !andb_true_iff, !N.leb_le. tauto.
Qed.

(** Decide a comparison of a bounded character with a constant. *)
Ltac char_cmp :=
  repeat match goal with
  | |- context [N.leb ?a ?b] =>
      first [ replace (N.leb a b) with true by (symmetry; apply N.leb_le; lia)
            | replace (N.leb a b) with false by (symmetry; apply N.leb_gt; lia) ]
  | |- context [N.ltb ?a ?b] =>
      first [ replace (N.ltb a b) with true by (symmetry; apply N.ltb_lt; lia)
            | replace (N.ltb a b) with false by (symmetry; apply N.ltb_ge; lia) ]
  | |- context [N.eqb ?a ?b] =>
      first [ replace (N.eqb a b) with false by (symmetry; apply N.eqb_neq; lia)
            | replace (N.eqb a b) with true by (symmetry; apply N.eqb_eq; lia) ]
  end.

Lemma key_char_not_space (c : char) : key_char c = true -> isspace c = false.
Proof.
  intros H. apply key_char_cases in H.
  unfold isspace, in_range. destruct H; char_cmp; reflexivity.
Qed.

Lemma key_char_ascii (c : char) : key_char c = true -> is_ascii c = true.
Proof.
  intros H. apply key_char_cases in H.
  unfold is_ascii. destruct H; char_cmp; reflexivity.
Qed.

Lemma key_char_lower (c : char) : key_char c = true -> ascii_lower c = c.
Proof.
  intros H. apply key_char_cases in H.
  unfold ascii_lower, is_AZ, in_range. destruct H; char_cmp; reflexivity.
Qed.

Lemma okc_ascii (c : char) : okc c -> is_ascii c = true.
Proof. intros [H | ->]; [apply key_char_ascii, H | reflexivity]. Qed.

Lemma okc_lower (c : char) : okc c -> ascii_lower c = c.
Proof. intros [H | ->]; [apply key_char_lower, H | reflexivity]. Qed.

Lemma okc_key (c : char) : okc c -> not_key_char c = false.
Proof.
  intros [H | ->]; [| reflexivity].
  unfold not_key_char. change (is_az c || is_09 c) with (key_char c).
  rewrite H. reflexivity.
Qed.

Lemma all_ascii_okc (s : pystr) : Forall okc s -> all_ascii s = true.
Proof.
  induction 1 as [| c r Hc _ IH]; [reflexivity |].
  cbn. rewrite (okc_ascii Hc). exact IH.
Qed.

Lemma map_lower_okc (s : pystr) : Forall okc s -> List.map ascii_lower s = s.
Proof.
  induction 1 as [| c r Hc _ IH]; [reflexivity |].
  cbn. rewrite (okc_lower Hc), IH. reflexivity.
Qed.

Lemma sub_runs_none (p : char -> bool) (s : pystr) :
  Forall (fun c => p c = false) s -> forall b, sub_runs p b s = s.
Proof.
  induction 1 as [| c r Hc _ IH]; intros b; [reflexivity |].
  cbn. rewrite Hc, IH. reflexivity.
Qed.

(** After the first substitution only key characters and white space are
    left. *)
Lemma sub_runs_key_chars (s : pystr) (b : bool) :
  Forall (fun c => key_char c = true \/ isspace c = true)
    (sub_runs not_key_char b s).
Proof.
  revert b. induction s as [| c r IH]; intros b; cbn; [constructor |].
  destruct (not_key_char c) eqn:E.
  - destruct b; [apply IH |]. constructor; [right; reflexivity | apply IH].
  - constructor; [| apply IH].
    unfold not_key_char in E. apply negb_false_iff in E.
    apply orb_true_iff in E. destruct E as [E | E]; [left | right]; exact E.
Qed.

(** After the second one white space is normalised and only key characters
    and single spaces are left. *)
Lemma sub_runs_space_okc (s : pystr) :
  Forall (fun c => key_char c = true \/ isspace c = true) s ->
  forall b, Forall okc (sub_runs isspace b s).
Proof.
  induction 1 as [| c r Hc _ IH]; intros b; cbn; [constructor |].
  destruct (isspace c) eqn:E.
  - destruct b; [apply IH |]. constructor; [right; reflexivity | apply IH].
  - constructor; [| apply IH]. destruct Hc as [Hc | Hc]; [left; exact Hc | congruence].
Qed.

Lemma sub_runs_space_norm (s : pystr) (b : bool) :
  norm_ws b (sub_runs isspace b s) = true.
Proof.
  revert b. induction s as [| c r IH]; intros b; cbn; [reflexivity |].
  destruct (isspace c) eqn:E.
  - destruct b; [apply IH |]. cbn. apply IH.
  - cbn. rewrite E. apply IH.
Qed.

Lemma norm_ws_fixed (s : pystr) (b : bool) :
  norm_ws b s = true -> sub_runs isspace b s = s.
Proof.
  revert b. induction s as [| c r IH]; intros b H; cbn in *; [reflexivity |].
  destruct (isspace c) eqn:E.
  - apply andb_true_iff in H. destruct H as [H Hr].
    apply andb_true_iff in H. destruct H as [Hc Hb].
    apply N.eqb_eq in Hc. apply negb_true_iff in Hb. subst b c.
    rewrite (IH true Hr). reflexivity.
  - rewrite (IH false H). reflexivity.
Qed.

Lemma norm_ws_weaken (s : pystr) : norm_ws true s = true -> norm_ws false s = true.
Proof.
  destruct s as [| c r]; cbn; [reflexivity |].
  destruct (isspace c); [| tauto]. rewrite andb_false_r. discriminate.
Qed.

Lemma norm_ws_true_lstrip (s : pystr) : norm_ws true s = true -> lstrip s = s.
Proof.
  destruct s as [| c r]; cbn; [reflexivity |].
  destruct (isspace c); [| reflexivity]. rewrite andb_false_r. discriminate.
Qed.

Lemma norm_ws_lstrip (s : pystr) (b : bool) :
  norm_ws b s = true -> norm_ws false (lstrip s) = true.
Proof.
  destruct s as [| c r]; cbn; [reflexivity |].
  destruct (isspace c) eqn:E; intros H.
  - apply andb_true_iff in H. destruct H as [_ Hr].
    rewrite (norm_ws_true_lstrip _ Hr). apply norm_ws_weaken, Hr.
  - cbn. rewrite E. exact H.
Qed.

Lemma norm_ws_rstrip (s : pystr) (b : bool) :
  norm_ws b s = true -> norm_ws b (rstrip s) = true.
Proof.
  revert b. induction s as [| c r IH]; intros b H; [reflexivity |].
  cbn in H. cbn [rstrip].
  destruct (rstrip r) as [| x r'] eqn:Er.
  - destruct (isspace c) eqn:E; [reflexivity |]. cbn. rewrite E. reflexivity.
  - cbn [norm_ws]. destruct (isspace c) eqn:E.
    + apply andb_true_iff in H. destruct H as [H Hr]. rewrite H.
      apply (IH true Hr).
    + apply (IH false H).
Qed.

Lemma Forall_lstrip (P : char -> Prop) (s : pystr) :
  Forall P s -> Forall P (lstrip s).
Proof.
  induction 1 as [| c r Hc Hr IH]; cbn; [constructor |].
  destruct (isspace c); [exact IH | constructor; assumption].
Qed.

Lemma Forall_rstrip (P : char -> Prop) (s : pystr) :
  Forall P s -> Forall P (rstrip s).
Proof.
  induction 1 as [| c r Hc Hr IH]; cbn; [constructor |].
  destruct (rstrip r) as [| x r'].
  - destruct (isspace c); constructor; [exact Hc | constructor].
  - constructor; assumption.
Qed.

Lemma Forall_strip (P : char -> Prop) (s : pystr) :
  Forall P s -> Forall P (strip s).
Proof. intros H. apply Forall_rstrip, Forall_lstrip, H. Qed.

Lemma rstrip_idem (s : pystr) : rstrip (rstrip s) = rstrip s.
Proof.
  induction s as [| c r IH]; [reflexivity |]. cbn [rstrip].
  destruct (rstrip r) as [| x r'] eqn:Er.
  - destruct (isspace c) eqn:E; [reflexivity |]. cbn. rewrite E. reflexivity.
  - cbn [rstrip] in *. rewrite IH. reflexivity.
Qed.

(** What [lstrip] leaves does not start with white space, and [rstrip]
    keeps it that way. *)
Lemma lstrip_rstrip_lstrip (s : pystr) :
  lstrip (rstrip (lstrip s)) = rstrip (lstrip s).
Proof.
  induction s as [| c r IH]; [reflexivity |]. cbn [lstrip].
  destruct (isspace c) eqn:E; [exact IH |]. cbn [rstrip].
  destruct (rstrip r); rewrite ?E; cbn [lstrip]; rewrite E; reflexivity.
Qed.

Lemma strip_idem (s : pystr) : strip (strip s) = strip s.
Proof.
  unfold strip. rewrite lstrip_rstrip_lstrip. apply rstrip_idem.
Qed.

Lemma norm_key_raw_clean (U : UnicodeDB) (s : pyval) :
  clean_key (_proj_norm_key_raw s).
Proof.
  unfold _proj_norm_key_raw.
  destruct (is_empty (strip (coerce_str s))).
  - split; [constructor | split; reflexivity].
  - split; [| split].
    + apply Forall_strip, sub_runs_space_okc, sub_runs_key_chars.
    + unfold strip. apply norm_ws_rstrip.
      apply norm_ws_lstrip with (b := false). apply sub_runs_space_norm.
    + apply strip_idem.
Qed.

Lemma filter_combining_okc (U : UnicodeDB) (k : pystr) :
  Forall okc k -> filter (fun ch => negb (combining ch)) k = k.
Proof.
  induction 1 as [| c r Hc _ IH]; [reflexivity |].
  cbn. unfold combining at 1. rewrite (okc_ascii Hc). cbn. rewrite IH. reflexivity.
Qed.

Lemma norm_key_raw_of_clean (U : UnicodeDB) (k : pystr) :
  clean_key k ->
  _PROJECT_PREFIX_RE_match k = None ->
  _proj_norm_key_raw (VStr k) = k.
Proof.
  intros (Hok & Hws & Hstrip) Hpre.
  unfold _proj_norm_key_raw. cbn [coerce_str]. rewrite Hstrip.
  assert (Hk : k = [] \/ is_empty k = false) by (destruct k; auto).
  destruct Hk as [-> | He]; [reflexivity | rewrite He].
  unfold _PROJECT_PREFIX_RE_sub. rewrite Hpre, Hstrip.
  unfold lower, nfkd. rewrite (all_ascii_okc Hok), (map_lower_okc Hok).
  rewrite (all_ascii_okc Hok), (filter_combining_okc _ Hok).
  rewrite sub_runs_none with (p := not_key_char).
  - rewrite (norm_ws_fixed _ _ Hws). exact Hstrip.
  - eapply Forall_impl; [| exact Hok]. intros a Ha. apply okc_key, Ha.
Qed.

(** C6, as stated, fails: only one leading prefix word is removed, so a
    key can itself start with one and lose it when normalised again. *)
Lemma norm_key_raw_not_idempotent :
  _proj_norm_key_raw (U := ascii_only) (VStr (py "project project x"))
  = py "project x"
  /\ _proj_norm_key_raw (U := ascii_only)
       (VStr (_proj_norm_key_raw (U := ascii_only) (VStr (py "project project x"))))
     = py "x"
  /\ py "x" <> py "project x".
Proof.
  split; [vm_compute; reflexivity |].
  split; [vm_compute; reflexivity | discriminate].
Qed.

(** C6, amended.  [_proj_norm_key_raw] is defined on every value, [None]
    and values that are not strings included, and normalising its result
    again changes nothing, provided the result does not start with a
    project-prefix word followed by white space. *)
Theorem norm_key_raw_idempotent :
  forall (U : UnicodeDB) (s : pyval),
    _PROJECT_PREFIX_RE_match (_proj_norm_key_raw s) = None ->
    _proj_norm_key_raw (VStr (_proj_norm_key_raw s)) = _proj_norm_key_raw s.
Proof.
  intros U s H. apply norm_key_raw_of_clean; [apply norm_key_raw_clean | exact H].
Qed.

Lemma norm_key_raw_idempotent_witness :
  _proj_norm_key_raw (U := ascii_only)
    (VStr (_proj_norm_key_raw (U := ascii_only) (VStr (py "  Proyecto   Zeta-2! "))))
  = _proj_norm_key_raw (U := ascii_only) (VStr (py "  Proyecto   Zeta-2! ")).
Proof.
  apply (@norm_key_raw_idempotent ascii_only). vm_compute. reflexivity.
Defined.

(** The example of the specification: digits are kept, case and
    punctuation are not. *)
Lemma norm_key_raw_zeta (U : UnicodeDB) :
  _proj_norm_key_raw (VStr (py "  Proyecto   Zeta-2! ")) = py "zeta 2"
  /\ _proj_norm_key_raw (VStr (py "ZETA 2")) = py "zeta 2"
  /\ _proj_norm_key_raw VNone = []
  /\ _proj_norm_key_raw (VInt 42) = py "42".
Proof.
  split; [| split; [| split]]; vm_compute; reflexivity.
Qed.

(** ** The canonical map: which names it holds *)

Lemma eqb_eq (a b : pystr) : eqb a b = true <-> a = b.
Proof.
  revert b. induction a as [| x a IH]; intros [| y b]; cbn; split;
    try discriminate; try reflexivity; intros H.
  - apply andb_true_iff in H. destruct H as [Hx Ha].
    apply N.eqb_eq in Hx. apply IH in Ha. congruence.
  - injection H as -> ->. rewrite N.eqb_refl. apply IH. reflexivity.
Qed.

Lemma eqb_refl (a : pystr) : eqb a a = true.
Proof. apply eqb_eq. reflexivity. Qed.

Lemma eqb_neq (a b : pystr) : eqb a b = false <-> a <> b.
Proof.
  rewrite <- eqb_eq. destruct (eqb a b); split; congruence.
Qed.

Lemma is_empty_true (s : pystr) : is_empty s = true <-> s = [].
Proof. destruct s; cbn; split; congruence. Qed.

Section MapKeys.
Context {U : UnicodeDB}.

(** *** Counting *)

Lemma counts_incr_keys (counts : counts_t) (s x : pystr) :
  In x (List.map fst (counts_incr counts s)) <->
  x = s \/ In x (List.map fst counts).
Proof.
  induction counts as [| [k n] r IH]; cbn.
  - intuition congruence.
  - destruct (eqb k s) eqn:E; cbn.
    + apply eqb_eq in E. subst k. intuition congruence.
    + rewrite IH. intuition congruence.
Qed.

Lemma count_step_keys (counts : counts_t) (v : pyval) (x : pystr) :
  In x (List.map fst (count_step counts v)) <->
  In x (List.map fst counts)
  \/ (is_null_like_value v = false /\ x = strip (py_str v)).
Proof.
  unfold count_step, is_null_like_value.
  destruct v as [| b | z | s]; [intuition congruence | | |];
    (destruct (null_like _) eqn:E;
     [intuition congruence | rewrite counts_incr_keys; intuition congruence]).
Qed.

Lemma fold_count_keys (values : list pyval) (counts : counts_t) (x : pystr) :
  In x (List.map fst (fold_left count_step values counts)) <->
  In x (List.map fst counts)
  \/ exists v, In v values /\ is_null_like_value v = false
               /\ x = strip (py_str v).
Proof.
  revert counts. induction values as [| v values IH]; intros counts; cbn.
  - split; [auto | intros [H | (v & [] & _)]; exact H].
  - rewrite IH, count_step_keys. split.
    + intros [[H | (Hn & Hx)] | (w & Hw & Hn & Hx)]; eauto 6.
    + intros [H | (w & [<- | Hw] & Hn & Hx)]; eauto 6.
Qed.

(** The keys of [counts] are the trimmed texts of the values that are not
    null-like. *)
Lemma count_values_keys (values : list pyval) (x : pystr) :
  In x (List.map fst (count_values values)) <->
  exists v, In v values /\ is_null_like_value v = false /\ x = strip (py_str v).
Proof.
  unfold count_values. rewrite fold_count_keys. cbn. tauto.
Qed.

(** *** Sorting *)

Lemma insert_sorted_perm (counts : counts_t) (x : pystr) (l : list pystr) :
  Permutation (x :: l) (insert_sorted counts x l).
Proof.
  induction l as [| y r IH]; cbn; [reflexivity |].
  destruct (key_le _ _); [reflexivity |].
  rewrite perm_swap. constructor. exact IH.
Qed.

Lemma sorted_perm (counts : counts_t) (l : list pystr) :
  Permutation l (fold_right (insert_sorted counts) [] l).
Proof.
  induction l as [| x r IH]; cbn; [reflexivity |].
  rewrite <- insert_sorted_perm. constructor. exact IH.
Qed.

Lemma sorted_uniques_perm (counts : counts_t) :
  Permutation (List.map fst counts) (sorted_uniques counts).
Proof. apply sorted_perm. Qed.

(** *** Clustering *)

Lemma place_covers (k orig : pystr) (clusters clusters' : list cluster) :
  place k orig clusters = Some clusters' ->
  covered clusters' orig
  /\ forall x, covered clusters x -> covered clusters' x.
Proof.
  revert clusters'. induction clusters as [| cl r IH]; intros clusters' H; cbn in H.
  - discriminate.
  - destruct (_projects_similar k (key cl) orig (repr cl)).
    + injection H as <-. split.
      * eexists. split; [left; reflexivity |]. cbn. apply in_or_app. right. left. reflexivity.
      * intros x (c & [<- | Hc] & Hx).
        -- eexists. split; [left; reflexivity |]. cbn. apply in_or_app. left. exact Hx.
        -- exists c. split; [right; exact Hc | exact Hx].
    + destruct (place k orig r) as [r' |] eqn:E; [| discriminate].
      injection H as <-. destruct (IH r' eq_refl) as [Ho Hm]. split.
      * destruct Ho as (c & Hc & Hx). exists c. split; [right; exact Hc | exact Hx].
      * intros x (c & [<- | Hc] & Hx).
        -- exists cl. split; [left; reflexivity | exact Hx].
        -- destruct (Hm x) as (c' & Hc' & Hx'); [exists c; auto |].
           exists c'. split; [right; exact Hc' | exact Hx'].
Qed.

Lemma cluster_step_mono (clusters : list cluster) (orig x : pystr) :
  covered clusters x -> covered (cluster_step clusters orig) x.
Proof.
  intros H. unfold cluster_step.
  destruct (is_empty _); [exact H |].
  destruct (place _ orig clusters) as [clusters' |] eqn:E.
  - apply (proj2 (place_covers _ _ _ E)), H.
  - destruct H as (c & Hc & Hx). exists c. split; [| exact Hx].
    apply in_or_app. left. exact Hc.
Qed.

Lemma cluster_step_covers (clusters : list cluster) (orig : pystr) :
  _proj_norm_key (VStr orig) <> [] ->
  covered (cluster_step clusters orig) orig.
Proof.
  intros H. unfold cluster_step.
  destruct (is_empty _) eqn:E; [apply is_empty_true in E; contradiction |].
  destruct (place _ orig clusters) as [clusters' |] eqn:Ep.
  - apply (proj1 (place_covers _ _ _ Ep)).
  - eexists. split; [apply in_or_app; right; left; reflexivity |].
    cbn. left. reflexivity.
Qed.

Lemma fold_cluster_mono (uniques : list pystr) (clusters : list cluster) (x : pystr) :
  covered clusters x -> covered (fold_left cluster_step uniques clusters) x.
Proof.
  revert clusters. induction uniques as [| o r IH]; intros clusters H; cbn.
  - exact H.
  - apply IH, cluster_step_mono, H.
Qed.

(** Every name with a key that is not empty ends up in a cluster. *)
Lemma build_clusters_covers (uniques : list pystr) (x : pystr) :
  In x uniques -> _proj_norm_key (VStr x) <> [] ->
  covered (build_clusters uniques) x.
Proof.
  unfold build_clusters. generalize (@nil cluster).
  induction uniques as [| o r IH]; intros clusters [] Hk; cbn.
  - subst o. apply fold_cluster_mono, cluster_step_covers, Hk.
  - apply IH; assumption.
Qed.

(** *** Labelling *)

Lemma mapping_set_keys (mapping : mapping_t) (m canon x : pystr) :
  In x (List.map fst (mapping_set mapping m canon)) <->
  x = m \/ In x (List.map fst mapping).
Proof.
  induction mapping as [| [k v] r IH]; cbn.
  - intuition congruence.
  - destruct (eqb k m) eqn:E; cbn.
    + apply eqb_eq in E. subst k. intuition congruence.
    + rewrite IH. intuition congruence.
Qed.

Lemma fold_set_keys (ms : list pystr) (canon : pystr) (mapping : mapping_t)
    (x : pystr) :
  In x (List.map fst
          (fold_left (fun mapping m => mapping_set mapping m canon) ms mapping))
  <-> In x ms \/ In x (List.map fst mapping).
Proof.
  revert mapping. induction ms as [| m r IH]; intros mapping; cbn.
  - tauto.
  - rewrite IH, mapping_set_keys. intuition congruence.
Qed.

Lemma label_cluster_keys (counts : counts_t) (mapping : mapping_t) (cl : cluster)
    (x : pystr) :
  In x (List.map fst (label_cluster counts mapping cl)) <->
  In x (members cl) \/ In x (List.map fst mapping).
Proof.
  unfold label_cluster. destruct (members cl) as [| m0 rest] eqn:E.
  - cbn. tauto.
  - rewrite fold_set_keys. tauto.
Qed.

Lemma fold_label_keys (counts : counts_t) (clusters : list cluster)
    (mapping : mapping_t) (x : pystr) :
  In x (List.map fst (fold_left (label_cluster counts) clusters mapping)) <->
  covered clusters x \/ In x (List.map fst mapping).
Proof.
  revert mapping. induction clusters as [| cl r IH]; intros mapping; cbn.
  - split; [auto | intros [(c & [] & _) | H]; exact H].
  - rewrite IH, label_cluster_keys. unfold covered. split.
    + intros [(c & Hc & Hx) | [Hx | Hx]].
      * left. exists c. split; [right; exact Hc | exact Hx].
      * left. exists cl. split; [left; reflexivity | exact Hx].
      * right. exact Hx.
    + intros [(c & [<- | Hc] & Hx) | Hx].
      * right. left. exact Hx.
      * left. exists c. split; assumption.
      * right. right. exact Hx.
Qed.

Lemma mapping_find_in (mapping : mapping_t) (x : pystr) :
  In x (List.map fst mapping) <-> exists c, mapping_find mapping x = Some c.
Proof.
  induction mapping as [| [k v] r IH]; cbn.
  - split; [intros [] | intros (c & H); discriminate].
  - destruct (eqb k x) eqn:E.
    + apply eqb_eq in E. split; eauto.
    + apply eqb_neq in E. rewrite <- IH. intuition congruence.
Qed.

(** The keys of the canonical map are the members of the clusters. *)
Lemma build_map_keys (values : list pyval) (x : pystr) :
  In x (List.map fst (build_project_canonical_map values)) <->
  covered (build_clusters (sorted_uniques (count_values values))) x.
Proof.
  unfold build_project_canonical_map.
  destruct (count_values values) as [| p counts] eqn:E.
  - cbn. split; [intros [] | intros (c & [] & _)].
  - rewrite fold_label_keys. cbn [List.map In]. tauto.
Qed.

End MapKeys.

(** C5, as stated, fails: a name without a letter or digit has an empty
    key, is skipped by the clustering loop and gets no entry, although it
    is not empty and not null-like. *)
Lemma name_without_key_is_dropped :
  build_project_canonical_map (U := ascii_only) [VStr (py "!!!"); VStr (py "Alpha")]
  = [(py "Alpha", py "Alpha")]
  /\ mapping_find
       (build_project_canonical_map (U := ascii_only)
          [VStr (py "!!!"); VStr (py "Alpha")]) (py "!!!") = None
  /\ strip (py "!!!") = py "!!!"
  /\ null_like (U := ascii_only) (py "!!!") = false.
Proof.
  split; [| split; [| split]]; vm_compute; reflexivity.
Qed.

(** C5, amended.  The canonical map has an entry for the trimmed text of
    every value of the input that is not null-like and whose normalised key
    is not empty. *)
Theorem canonical_map_total :
  forall (U : UnicodeDB) (project_values : list pyval) (v : pyval),
    In v project_values ->
    is_null_like_value v = false ->
    _proj_norm_key (VStr (strip (py_str v))) <> [] ->
    exists canon,
      mapping_find (build_project_canonical_map project_values)
        (strip (py_str v)) = Some canon.
Proof.
  intros U values v Hin Hnull Hkey.
  apply mapping_find_in, build_map_keys, build_clusters_covers; [| exact Hkey].
  apply (Permutation_in _ (sorted_uniques_perm _)).
  apply count_values_keys. exists v. auto.
Qed.

Lemma canonical_map_total_witness :
  exists canon,
    mapping_find (build_project_canonical_map (U := ascii_only) alpha_batch)
      (strip (py_str (VStr (py "Alpha Implementation")))) = Some canon.
Proof.
  apply (@canonical_map_total ascii_only alpha_batch
           (VStr (py "Alpha Implementation"))).
  - cbn. tauto.
  - vm_compute. reflexivity.
  - vm_compute. discriminate.
Defined.

(** ** Rebuilding the map from the rewritten batch *)


Section Rebuild.
Context {U : UnicodeDB}.

Lemma counts_incr_nodup (counts : counts_t) (s : pystr) :
  NoDup (List.map fst counts) -> NoDup (List.map fst (counts_incr counts s)).
Proof.
  induction counts as [| [k n] r IH]; cbn; intros H.
  - constructor; [intros [] | constructor].
  - destruct (eqb k s) eqn:E; cbn; [exact H |].
    inversion H as [| ? ? Hk Hr]; subst. constructor; [| apply IH, Hr].
    rewrite counts_incr_keys. apply eqb_neq in E. intuition congruence.
Qed.

Lemma count_values_nodup (values : list pyval) :
  NoDup (List.map fst (count_values values)).
Proof.
  unfold count_values.
  assert (H : NoDup (List.map fst (@nil (pystr * Z)))) by constructor.
  revert H. generalize (@nil (pystr * Z)).
  induction values as [| v r IH]; intros counts H; cbn; [exact H |].
  apply IH. unfold count_step.
  destruct v; try exact H;
    (destruct (null_like _); [exact H | apply counts_incr_nodup, H]).
Qed.

Lemma place_singletons (o : pystr) (P : list pystr) :
  (forall p, In p P -> similar_names o p = false) ->
  place (_proj_norm_key (VStr o)) o (List.map singleton P) = None.
Proof.
  induction P as [| p r IH]; intros H; cbn; [reflexivity |].
  change (_projects_similar (_proj_norm_key (VStr o)) (_proj_norm_key (VStr p)) o p)
    with (similar_names o p).
  rewrite (H p (or_introl eq_refl)), IH; [reflexivity |].
  intros q Hq. apply H. right. exact Hq.
Qed.

Lemma keyed_app (l1 l2 : list pystr) : keyed (l1 ++ l2) = keyed l1 ++ keyed l2.
Proof. apply filter_app. Qed.

Lemma keyed_in (l : list pystr) (x : pystr) :
  In x (keyed l) <-> In x l /\ _proj_norm_key (VStr x) <> [].
Proof.
  unfold keyed. rewrite filter_In, negb_true_iff.
  rewrite <- is_empty_true. destruct (is_empty _); intuition congruence.
Qed.

(** Names that are pairwise not similar open a cluster each. *)
Lemma fold_cluster_singletons (us P : list pystr) :
  NoDup (P ++ us) ->
  (forall a b, In a (P ++ us) -> In b (P ++ us) -> a <> b ->
               similar_names a b = false) ->
  fold_left cluster_step us (List.map singleton (keyed P))
  = List.map singleton (keyed (P ++ us)).
Proof.
  revert P. induction us as [| o r IH]; intros P Hnd Hdis; cbn.
  - rewrite app_nil_r. reflexivity.
  - assert (Hassoc : P ++ o :: r = (P ++ [o]) ++ r)
      by (rewrite <- app_assoc; reflexivity).
    rewrite Hassoc in Hnd, Hdis |- *.
    rewrite <- (IH (P ++ [o]) Hnd Hdis). f_equal.
    unfold cluster_step. rewrite keyed_app. cbn.
    destruct (is_empty (_proj_norm_key (VStr o))) eqn:E; cbn.
    + rewrite app_nil_r. reflexivity.
    + rewrite place_singletons.
      * rewrite map_app. reflexivity.
      * intros p Hp. apply keyed_in in Hp. destruct Hp as [Hp _].
        apply Hdis.
        -- apply in_or_app. left. apply in_or_app. right. left. reflexivity.
        -- apply in_or_app. left. apply in_or_app. left. exact Hp.
        -- intros ->. rewrite <- app_assoc in Hnd. cbn in Hnd.
           apply NoDup_remove_2 in Hnd. apply Hnd.
           apply in_or_app. left. exact Hp.
Qed.

Lemma mapping_set_fresh (mapping : mapping_t) (m canon : pystr) :
  ~ In m (List.map fst mapping) ->
  mapping_set mapping m canon = mapping ++ [(m, canon)].
Proof.
  induction mapping as [| [k v] r IH]; cbn; intros H; [reflexivity |].
  destruct (eqb k m) eqn:E.
  - apply eqb_eq in E. tauto.
  - rewrite IH; [reflexivity | tauto].
Qed.

Lemma label_cluster_singleton (counts : counts_t) (mapping : mapping_t)
    (o : pystr) :
  label_cluster counts mapping (singleton o) = mapping_set mapping o (canon_of o).
Proof. reflexivity. Qed.

(** Clusters of one member label that member with its own canonical
    form. *)
Lemma fold_label_singletons (counts : counts_t) (L : list pystr)
    (mapping : mapping_t) :
  NoDup (List.map fst mapping ++ L) ->
  fold_left (label_cluster counts) (List.map singleton L) mapping
  = mapping ++ List.map (fun o => (o, canon_of o)) L.
Proof.
  revert mapping. induction L as [| o r IH]; intros mapping Hnd;
    cbn [fold_left List.map].
  - rewrite app_nil_r. reflexivity.
  - rewrite label_cluster_singleton, mapping_set_fresh.
    + rewrite IH.
      * rewrite <- app_assoc. reflexivity.
      * rewrite map_app. cbn. rewrite <- app_assoc. exact Hnd.
    + apply NoDup_remove_2 in Hnd. intros Hin. apply Hnd.
      apply in_or_app. left. exact Hin.
Qed.

Lemma keyed_nodup (l : list pystr) : NoDup l -> NoDup (keyed l).
Proof. apply NoDup_filter. Qed.

(** The canonical map of a column whose names are pairwise not similar. *)
Lemma build_map_of_dissimilar (col : list pyval) :
  names_dissimilar col = true ->
  build_project_canonical_map col
  = List.map (fun o => (o, canon_of o))
      (keyed (sorted_uniques (count_values col))).
Proof.
  intros Hdis. unfold build_project_canonical_map.
  destruct (count_values col) as [| p counts] eqn:E; [reflexivity |].
  rewrite <- E.
  assert (Hperm := sorted_uniques_perm (count_values col)).
  assert (Hnd : NoDup (sorted_uniques (count_values col))).
  { eapply Permutation_NoDup; [exact Hperm | apply count_values_nodup]. }
  unfold build_clusters.
  rewrite (fold_cluster_singletons (sorted_uniques (count_values col)) []).
  - cbn [app]. rewrite fold_label_singletons; [reflexivity |].
    cbn. apply keyed_nodup, Hnd.
  - exact Hnd.
  - cbn [app]. intros a b Ha Hb Hab.
    unfold names_dissimilar, names_of in Hdis.
    rewrite forallb_forall in Hdis.
    apply Permutation_sym in Hperm.
    specialize (Hdis a (Permutation_in _ Hperm Ha)).
    rewrite forallb_forall in Hdis.
    specialize (Hdis b (Permutation_in _ Hperm Hb)).
    apply orb_true_iff in Hdis. destruct Hdis as [Hd | Hd].
    + apply eqb_eq in Hd. contradiction.
    + apply negb_true_iff in Hd. exact Hd.
Qed.

End Rebuild.

(** ** The matching blocks are always found *)

Module DifflibFacts.
Import Difflib DifflibSpec.

Lemma j2len_get_bound (blo n : nat) (j2len : list (nat * nat)) (j : nat) :
  row_bound blo n j2len ->
  j2len_get j2len j <= n /\ j2len_get j2len j <= j + 1 - blo.
Proof.
  induction 1 as [| [j' k] r Hk _ IH]; cbn; [lia |].
  destruct (Nat.eqb j j') eqn:E; [| exact IH].
  apply Nat.eqb_eq in E. subst j'. exact Hk.
Qed.

Lemma inner_loop_inv (alo blo bhi i : nat) (j2len : list (nat * nat))
    (js : list nat) (st : list (nat * nat) * match_t) :
  alo <= i ->
  row_bound blo (i - alo) j2len ->
  row_inv alo blo bhi (S i) st ->
  row_inv alo blo bhi (S i) (inner_loop blo bhi i j2len js st).
Proof.
  intros Hi Hrow. revert st.
  induction js as [| j rest IH]; intros st Hst; cbn [inner_loop].
  - exact Hst.
  - destruct (j <? blo) eqn:Elo; [apply IH; exact Hst |].
    destruct (bhi <=? j) eqn:Ehi; [exact Hst |].
    apply Nat.ltb_ge in Elo. apply Nat.leb_gt in Ehi.
    destruct st as [newj2len [[besti bestj] bestsize]].
    destruct Hst as [Hnew Hbest]. cbn [fst snd] in Hnew, Hbest.
    set (k := match j with 0 => 0 | S j' => j2len_get j2len j' end + 1).
    assert (Hk : k <= S i - alo /\ k <= j + 1 - blo).
    { unfold k. destruct j as [| j'];
        [| pose proof (j2len_get_bound j' Hrow)]; lia. }
    apply IH. split; cbn [fst snd].
    + constructor; [exact Hk | exact Hnew].
    + destruct (bestsize <? k); [| exact Hbest]. cbn. lia.
Qed.

Lemma outer_fold_inv (a b : pystr) (alo blo bhi n i : nat)
    (st : list (nat * nat) * match_t) :
  alo <= i -> row_inv alo blo bhi i st ->
  row_inv alo blo bhi (i + n)
    (fold_left
       (fun (st : list (nat * nat) * match_t) i =>
          inner_loop blo bhi i (fst st) (b2j_get b (nth i a 0%N)) ([], snd st))
       (seq i n) st).
Proof.
  revert i st. induction n as [| n IH]; intros i st Hi [Hrow Hbest]; cbn.
  - rewrite Nat.add_0_r. split; assumption.
  - replace (i + S n) with (S i + n) by lia. apply IH; [lia |].
    apply inner_loop_inv; [exact Hi | exact Hrow |].
    split; cbn [fst snd]; [constructor |].
    destruct (snd st) as [[besti bestj] bestsize]. cbn in *. lia.
Qed.

Lemma outer_loop_ok (a b : pystr) (alo ahi blo bhi : nat) :
  alo <= ahi -> blo <= bhi ->
  best_ok alo ahi blo bhi (outer_loop a b alo ahi blo bhi).
Proof.
  intros Ha Hb. unfold outer_loop.
  assert (Hinit : row_inv alo blo bhi alo ([], (alo, blo, 0))).
  { split; [constructor | cbn; lia]. }
  pose proof (outer_fold_inv a b (ahi - alo) (le_n alo) Hinit) as [_ H].
  replace (alo + (ahi - alo)) with ahi in H by lia. exact H.
Qed.

Lemma extend_left_ok (a b : pystr) (alo ahi blo bhi fuel : nat) (m : match_t) :
  best_ok alo ahi blo bhi m ->
  best_ok alo ahi blo bhi (extend_left a b alo blo fuel m).
Proof.
  revert m. induction fuel as [| fuel IH]; intros [[besti bestj] bestsize] H;
    cbn [extend_left]; [exact H |].
  destruct (_ && _) eqn:E; [| exact H].
  apply IH. apply andb_true_iff in E. destruct E as [E _].
  apply andb_true_iff in E. destruct E as [Ei Ej].
  apply Nat.ltb_lt in Ei. apply Nat.ltb_lt in Ej. cbn in *. lia.
Qed.

Lemma extend_right_ok (a b : pystr) (alo ahi blo bhi fuel : nat) (m : match_t) :
  best_ok alo ahi blo bhi m ->
  best_ok alo ahi blo bhi (extend_right a b ahi bhi fuel m).
Proof.
  revert m. induction fuel as [| fuel IH]; intros [[besti bestj] bestsize] H;
    cbn [extend_right]; [exact H |].
  destruct (_ && _) eqn:E; [| exact H].
  apply IH. apply andb_true_iff in E. destruct E as [E _].
  apply andb_true_iff in E. destruct E as [Ei Ej].
  apply Nat.ltb_lt in Ei. apply Nat.ltb_lt in Ej. cbn in *. lia.
Qed.

(** The loops that extend a block stop because their condition fails, not
    because the rounds they are given run out. *)
Lemma extend_left_fuel (a b : pystr) (alo blo fuel besti bestj bestsize : nat) :
  besti <= fuel ->
  extend_left a b alo blo (S fuel) (besti, bestj, bestsize)
  = extend_left a b alo blo fuel (besti, bestj, bestsize).
Proof.
  revert besti bestj bestsize.
  induction fuel as [| fuel IH]; intros besti bestj bestsize H.
  - cbn [extend_left].
    replace (alo <? besti) with false; [reflexivity |].
    symmetry. apply Nat.ltb_ge. lia.
  - cbn [extend_left]. destruct (_ && _) eqn:E; [| reflexivity].
    apply IH. lia.
Qed.

Lemma extend_right_fuel (a b : pystr) (ahi bhi fuel besti bestj bestsize : nat) :
  ahi - (besti + bestsize) <= fuel ->
  extend_right a b ahi bhi (S fuel) (besti, bestj, bestsize)
  = extend_right a b ahi bhi fuel (besti, bestj, bestsize).
Proof.
  revert bestsize.
  induction fuel as [| fuel IH]; intros bestsize H.
  - cbn [extend_right].
    replace (besti + bestsize <? ahi) with false; [reflexivity |].
    symmetry. apply Nat.ltb_ge. lia.
  - cbn [extend_right]. destruct (_ && _) eqn:E; [| reflexivity].
    apply IH. lia.
Qed.

(** The block [find_longest_match] returns lies in [a[alo:ahi]] and in
    [b[blo:bhi]]; in particular no subtraction of the model is cut off
    at 0. *)
Lemma find_longest_match_ok (a b : pystr) (alo ahi blo bhi : nat) :
  alo <= ahi -> blo <= bhi ->
  best_ok alo ahi blo bhi (find_longest_match a b alo ahi blo bhi).
Proof.
  intros Ha Hb. unfold find_longest_match.
  pose proof (@extend_left_ok a b alo ahi blo bhi
                (fst (fst (outer_loop a b alo ahi blo bhi))) _
                (outer_loop_ok a b Ha Hb)) as Hl.
  destruct (extend_left _ _ _ _ _ _) as [[besti bestj] bestsize].
  apply extend_right_ok, Hl.
Qed.

Lemma blocks_loop_total (a b : pystr) (fuel : nat) (queue : list range_t)
    (acc : list match_t) :
  Forall range_ok queue -> queue_measure queue < fuel ->
  exists blocks, blocks_loop a b fuel queue acc = Some blocks.
Proof.
  revert queue acc. induction fuel as [| fuel IH]; intros queue acc Hok Hm;
    [lia |].
  destruct queue as [| [[[alo ahi] blo] bhi] queue']; [eexists; reflexivity |].
  cbn [blocks_loop]. inversion Hok as [| ? ? Hr Hq]; subst.
  destruct Hr as [Hra Hrb]. cbn in Hm.
  pose proof (find_longest_match_ok a b Hra Hrb) as Hb.
  destruct (find_longest_match a b alo ahi blo bhi) as [[i j] k].
  cbn in Hb.
  destruct (Nat.eqb k 0) eqn:Ek.
  - apply IH; [exact Hq | lia].
  - apply Nat.eqb_neq in Ek. apply IH.
    + destruct ((i + k <? ahi) && (j + k <? bhi));
        destruct ((alo <? i) && (blo <? j));
        repeat (constructor; cbn; try lia); exact Hq.
    + destruct ((i + k <? ahi) && (j + k <? bhi));
        destruct ((alo <? i) && (blo <? j)); cbn; lia.
Qed.

(** [get_matching_blocks] terminates within the rounds the model allows:
    the fallback of [matches] is never used. *)
Theorem matching_blocks_total (a b : pystr) :
  exists blocks, matching_blocks a b = Some blocks.
Proof.
  unfold matching_blocks, blocks_fuel. apply blocks_loop_total.
  - constructor; [cbn; lia | constructor].
  - cbn. lia.
Qed.

End DifflibFacts.

(** The outer loop of [_strip_generic_head_tokens] never needs more rounds
    than there are tokens. *)
Lemma dropwhile_length {A} (p : A -> bool) (l : list A) :
  length (dropwhile p l) <= length l.
Proof.
  induction l as [| x r IH]; cbn; [lia |]. destruct (p x); cbn; lia.
Qed.

Lemma head_loop_fuel (fuel : nat) (toks : list pystr) :
  length toks <= fuel -> head_loop (S fuel) toks = head_loop fuel toks.
Proof.
  revert toks. induction fuel as [| fuel IH]; intros toks H.
  - destruct toks; [reflexivity | cbn in H; lia].
  - cbn [head_loop]. destruct toks as [| t r]; [reflexivity |].
    destruct (str_in t _GENERIC_HEAD_TOKENS); [| reflexivity].
    apply IH. cbn in H.
    pose proof (dropwhile_length (fun t => str_in t _PROJECT_STOPWORDS) r). lia.
Qed.

(** * Further properties of the priority cascade *)

Section Cascade.
Context {U : UnicodeDB}.

(** X1.  Whatever its arguments, a forced priority outside the three tiers
    included, [map_to_priority] returns one of ["High"], ["Medium"],
    ["Low"]. *)
Theorem priority_is_a_tier :
  forall sender subject body email_type action_level decision_level urgency
         blocks_others score importance user_config forced_priority
         is_phishing is_spam,
    val_in (map_to_priority sender subject body email_type action_level
              decision_level urgency blocks_others score importance
              user_config forced_priority is_phishing is_spam) TIERS = true.
Proof.
  intros. unfold map_to_priority. cbv zeta.
  destruct (is_phishing || is_spam); [reflexivity |].
  destruct (check_user_overrides _ _ _); [reflexivity |].
  destruct (truthy forced_priority
            && val_in forced_priority [py "High"; py "Medium"; py "Low"]) eqn:E.
  - apply andb_true_iff in E. apply E.
  - repeat (match goal with
            | |- val_in (if ?c then _ else _) _ = true => destruct c
            end; try reflexivity).
Qed.

(** X2.  Without a security flag, a sender that matches an entry of the
    VIP list is ["High"], whatever is forced and whatever the content. *)
Theorem vip_sender_is_high :
  forall sender subject body email_type action_level decision_level urgency
         blocks_others score importance user_config forced_priority,
    check_user_overrides (subject ++ SP :: body) sender
      (config_vips user_config) = true ->
    map_to_priority sender subject body email_type action_level decision_level
      urgency blocks_others score importance user_config forced_priority
      false false = VStr (py "High").
Proof.
  intros until forced_priority. intros H.
  unfold map_to_priority. cbv zeta. cbn [orb]. rewrite H. reflexivity.
Qed.

(** X3.  The tier never goes down when the score goes up, everything else
    being equal. *)
Theorem priority_monotone_in_score :
  forall sender subject body email_type action_level decision_level urgency
         blocks_others importance user_config forced_priority is_phishing
         is_spam (score score' : Z),
    (score <= score')%Z ->
    tier_rank (map_to_priority sender subject body email_type action_level
                 decision_level urgency blocks_others score importance
                 user_config forced_priority is_phishing is_spam)
    <= tier_rank (map_to_priority sender subject body email_type action_level
                    decision_level urgency blocks_others score' importance
                    user_config forced_priority is_phishing is_spam).
Proof.
  intros until score'. intros Hle.
  unfold map_to_priority. cbv zeta.
  repeat (match goal with
          | |- tier_rank (if ?c then _ else _) <= _ =>
              destruct c eqn:?; cbv iota
          | |- _ <= tier_rank (if ?c then _ else _) =>
              destruct c eqn:?; cbv iota
          end; try apply le_n);
    repeat match goal with
           | H : (_ <? _)%Z && _ = true |- _ =>
               apply andb_true_iff in H; destruct H
           | H : (_ <? _)%Z && _ = false |- _ =>
               apply andb_false_iff in H; destruct H
           end;
    repeat match goal with
           | H : (_ <=? _)%Z = true |- _ => apply Z.leb_le in H
           | H : (_ <=? _)%Z = false |- _ => apply Z.leb_gt in H
           | H : (_ <? _)%Z = true |- _ => apply Z.ltb_lt in H
           | H : (_ <? _)%Z = false |- _ => apply Z.ltb_ge in H
           end;
    first [ lia | congruence | vm_compute; lia ].
Qed.

(** X4.  Without a security flag and unless ["Low"] is forced, ["Low"] is
    returned only for a message that asks for no action and either comes
    from an untrusted sender with a spam indicator in its text, or has
    action level ["None"] with a score under 30 or urgency ["Low"]. *)
Theorem low_only_without_action :
  forall sender subject body email_type action_level decision_level urgency
         blocks_others score importance user_config forced_priority,
    forced_priority <> VStr (py "Low") ->
    map_to_priority sender subject body email_type action_level decision_level
      urgency blocks_others score importance user_config forced_priority
      false false = VStr (py "Low") ->
    val_in action_level [py "Mandatory"; py "Optional"] = false
    /\ ((cascade_trusted sender = false
         /\ any_in spam_indicators (lower (subject ++ SP :: body)) = true)
        \/ (is_str action_level (py "None") = true
            /\ ((score <? 30)%Z = true \/ is_str urgency (py "Low") = true))).
Proof.
  intros until forced_priority. intros Hforced.
  unfold map_to_priority. cbv zeta. cbn [orb].
  fold (cascade_trusted sender).
  destruct (check_user_overrides _ _ _); [discriminate |].
  destruct (truthy forced_priority && val_in forced_priority _);
    [intros H; contradiction |].
  repeat (match goal with
          | |- (if ?c then _ else _) = _ -> _ =>
              lazymatch c with
              | val_in action_level _ => fail
              | _ => destruct c; [discriminate |]
              end
          end).
  destruct (val_in action_level [py "Mandatory"; py "Optional"]).
  - destruct (50 <=? score)%Z; discriminate.
  - split; [reflexivity |].
    destruct (negb (cascade_trusted sender) && any_in spam_indicators _) eqn:E1.
    + apply andb_true_iff in E1. destruct E1 as [Et Es].
      apply negb_true_iff in Et. left. split; assumption.
    + destruct ((score <? 30)%Z && is_str action_level (py "None")) eqn:E2.
      * apply andb_true_iff in E2. right. tauto.
      * destruct (is_str urgency (py "Low") && is_str action_level (py "None")) eqn:E3;
          [| discriminate].
        apply andb_true_iff in E3. right. tauto.
Qed.

(** X5.  Without a security flag and a valid forced priority, and when the
    corporate-benefit rule does not apply, immediate urgency, a message that
    blocks others, or a score of 75 or more gives ["High"]. *)
Theorem urgent_or_blocking_is_high :
  forall sender subject body email_type action_level decision_level urgency
         blocks_others score importance user_config forced_priority,
    val_in forced_priority TIERS = false ->
    cascade_trusted sender && any_in benefit_keywords (lower subject) = false ->
    is_str urgency (py "Immediate") || truthy blocks_others
    || (75 <=? score)%Z = true ->
    map_to_priority sender subject body email_type action_level decision_level
      urgency blocks_others score importance user_config forced_priority
      false false = VStr (py "High").
Proof.
  intros until forced_priority. intros Hforced Hbenefit Hrule.
  unfold map_to_priority. cbv zeta. cbn [orb].
  fold (cascade_trusted sender). unfold TIERS in Hforced.
  rewrite Hforced, andb_false_r, Hbenefit.
  destruct (check_user_overrides _ _ _); [reflexivity |].
  destruct (any_in sharing_keywords (lower subject) && _); [reflexivity |].
  apply orb_true_iff in Hrule. destruct Hrule as [Hrule | Hrule].
  - rewrite Hrule. reflexivity.
  - destruct (is_str urgency (py "Immediate") || truthy blocks_others);
      [reflexivity |]. rewrite Hrule. reflexivity.
Qed.

End Cascade.

Lemma vip_sender_is_high_witness :
  map_to_priority (U := ascii_only) (py "Boss <boss@corp.com>") (py "fyi")
    (py "see below") (VStr (py "FYI_Informational")) (VStr (py "None"))
    (VStr (py "None")) (VStr (py "Low")) (VBool false) 0 VNone
    (Some {| vip_senders := [py ""; py "BOSS@"] |}) (VStr (py "Low")) false false
  = VStr (py "High").
Proof.
  apply (@vip_sender_is_high ascii_only). vm_compute. reflexivity.
Defined.

Lemma priority_monotone_in_score_witness :
  tier_rank (map_to_priority (U := ascii_only) (py "a@b.org") (py "hello")
               (py "text") (VStr (py "Meeting")) (VStr (py "None")) VNone
               (VStr (py "Medium-term")) (VBool false) 20 VNone None VNone
               false false)
  <= tier_rank (map_to_priority (U := ascii_only) (py "a@b.org") (py "hello")
                  (py "text") (VStr (py "Meeting")) (VStr (py "None")) VNone
                  (VStr (py "Medium-term")) (VBool false) 80 VNone None VNone
                  false false).
Proof.
  apply (@priority_monotone_in_score ascii_only). lia.
Defined.

Lemma low_only_without_action_witness :
  val_in (VStr (py "None")) [py "Mandatory"; py "Optional"] = false
  /\ ((cascade_trusted (U := ascii_only) (py "promo@shop.example") = false
       /\ any_in spam_indicators
            (lower (U := ascii_only) (py "Big sale" ++ SP :: py "buy")) = true)
      \/ (is_str (VStr (py "None")) (py "None") = true
          /\ ((60 <? 30)%Z = true
              \/ is_str (VStr (py "Medium-term")) (py "Low") = true))).
Proof.
  apply (@low_only_without_action ascii_only (py "promo@shop.example")
           (py "Big sale") (py "buy") (VStr (py "Meeting")) (VStr (py "None"))
           VNone (VStr (py "Medium-term")) (VBool false) 60 VNone None VNone).
  - discriminate.
  - vm_compute. reflexivity.
Defined.

Lemma urgent_or_blocking_is_high_witness :
  map_to_priority (U := ascii_only) (py "a@b.org") (py "newsletter")
    (py "unsubscribe") (VStr (py "FYI_Informational")) (VStr (py "None"))
    VNone (VStr (py "Low")) (VInt 1) 10 VNone None (VStr (py "urgent"))
    false false = VStr (py "High").
Proof.
  apply (@urgent_or_blocking_is_high ascii_only); vm_compute; reflexivity.
Defined.

(** * Further properties of the priority score *)

Section ScoreFacts.
Context {U : UnicodeDB}.
Variable to_datetime : pyval -> option Z.

Lemma if_add (c : bool) (x k : Z) :
  (if c then x + k else x)%Z = (x + if c then k else 0)%Z.
Proof. destruct c; lia. Qed.

Lemma if_sub (c : bool) (x k : Z) :
  (if c then x - k else x)%Z = (x + if c then - k else 0)%Z.
Proof. destruct c; lia. Qed.

Lemma if_add2 (c d : bool) (x k l : Z) :
  (if c then x + k else if d then x + l else x)%Z
  = (x + if c then k else if d then l else 0)%Z.
Proof. destruct c, d; lia. Qed.

Lemma if_add_or (c : bool) (x k l : Z) :
  (if c then x + k else x + l)%Z = (x + if c then k else l)%Z.
Proof. destruct c; lia. Qed.

Lemma if_add_sub (c d : bool) (x k l : Z) :
  (if c then x + k else if d then x - l else x)%Z
  = (x + if c then k else if d then - l else 0)%Z.
Proof. destruct c, d; lia. Qed.

(** The score before the clamp is the base 50 plus one adjustment per
    rule. *)
Lemma raw_priority_score_sum (now : Z) (data : pydict) (importance : pyval)
    (subject : pystr) :
  raw_priority_score to_datetime now data importance subject
  = (50
     + (if contains (py "[high priority]") (lower subject)
           || contains (py "[urgent]") (lower subject) then 20 else 0)
     + (if truthy importance
           && eqb (lower (strip (py_str importance))) (py "high")
        then 20 else 0)
     + (if is_str (dget data "email_type" (VStr [])) (py "Notification_System")
           && is_str (dget data "action_level" (VStr (py "None"))) (py "Mandatory")
        then 15 else type_weight (dget data "email_type" (VStr [])))
     + (if any_in spam_keywords (full_context_check data subject)
        then - 30 else 0)
     + (if is_marketing_context data subject then - 15 else 0)
     + (if any_in closure_keywords (summary_of data) then - 20 else 0)
     + (if is_str (dget data "action_level" VNone) (py "Mandatory") then 20
        else if is_str (dget data "action_level" VNone) (py "Optional") then 10
        else 0)
     + (if is_str (dget data "decision_level" VNone) (py "Required") then 20
        else if is_str (dget data "decision_level" VNone) (py "Optional") then 10
        else 0)
     + (if negb (is_marketing_context data subject)
        then urgency_weight (dget data "urgency" (VStr (py "Low")))
        else if val_in (dget data "urgency" (VStr (py "Low")))
                  [py "Immediate"; py "Short-term"]
             then - 10 else 0)
     + (if truthy (dget data "blocks_others" VNone) then 25 else 0)
     + (if truthy (dget data "decision_pending" VNone) then 15 else 0)
     + (if truthy (dget data "deadline" VNone)
           && negb (is_marketing_context data subject)
        then deadline_weight to_datetime now data else 0))%Z.
Proof.
  unfold raw_priority_score. cbv zeta.
  repeat first [ rewrite if_add | rewrite if_sub | rewrite if_add2
               | rewrite if_add_sub | rewrite if_add_or ].
  reflexivity.
Qed.

Lemma deadline_weight_range (now : Z) (data : pydict) :
  (0 <= deadline_weight to_datetime now data <= 30)%Z.
Proof.
  unfold deadline_weight.
  destruct (to_datetime _); [| lia].
  repeat match goal with
         | |- context [if ?c then _ else _] => destruct c
         end; lia.
Qed.



Lemma is_str_eq (v : pyval) (s : pystr) : is_str v s = true <-> v = VStr s.
Proof.
  destruct v; cbn; split; try discriminate.
  - intros H. apply eqb_eq in H. congruence.
  - intros H. injection H as ->. apply eqb_refl.
Qed.

(** X7.  Outside marketing context, a request for approval or decision
    with a mandatory action, immediate urgency and others blocked scores the
    maximum, whatever its text, importance and deadline. *)
Theorem blocking_approval_scores_100 :
  forall (now : Z) (data : pydict) (importance : pyval) (subject : pystr),
    val_in (dget data "email_type" (VStr []))
      [py "Approval_Request"; py "Decision_Required"] = true ->
    dict_find data "action_level" = Some (VStr (py "Mandatory")) ->
    dict_find data "urgency" = Some (VStr (py "Immediate")) ->
    truthy (dget data "blocks_others" VNone) = true ->
    is_marketing_context data subject = false ->
    calculate_priority_score to_datetime now data importance subject = 100%Z.
Proof.
  intros now data importance subject Htype Haction Hurg Hblocks Hmkt.
  unfold calculate_priority_score. rewrite raw_priority_score_sum.
  unfold dget in *. rewrite Haction, Hurg, Hblocks, Hmkt.
  pose proof (deadline_weight_range now data).
  assert (Ht : (if is_str match dict_find data "email_type" with
                          | Some v => v | None => VStr [] end
                     (py "Notification_System")
                   && is_str (VStr (py "Mandatory")) (py "Mandatory")
                then 15
                else type_weight match dict_find data "email_type" with
                                 | Some v => v | None => VStr [] end)%Z = 25%Z).
  { unfold val_in in Htype. cbn [existsb] in Htype.
    rewrite orb_false_r in Htype. apply orb_true_iff in Htype.
    destruct Htype as [Ht | Ht]; apply is_str_eq in Ht; rewrite Ht; reflexivity. }
  rewrite Ht.
  change (is_str (VStr (py "Mandatory")) (py "Mandatory")) with true.
  change (urgency_weight (VStr (py "Immediate"))) with 30%Z.
  cbn [negb].
  repeat match goal with
         | |- context [if ?c then _ else _] => destruct c
         end; lia.
Qed.

End ScoreFacts.


Lemma blocking_approval_scores_100_witness :
  calculate_priority_score (U := ascii_only) to_datetime_iso 0 approval_bundle
    (VStr (py "normal")) (py "Newsletter sign-off, thanks") = 100%Z.
Proof.
  apply (@blocking_approval_scores_100 ascii_only); vm_compute; reflexivity.
Defined.

(** * Further properties of the canonical map *)

Section MapFacts.
Context {U : UnicodeDB}.

(** *** Where the keys come from *)

Lemma place_members (k orig : pystr) (clusters clusters' : list cluster)
    (x : pystr) :
  place k orig clusters = Some clusters' ->
  covered clusters' x -> x = orig \/ covered clusters x.
Proof.
  revert clusters'. induction clusters as [| cl r IH]; intros clusters' H Hx;
    cbn in H; [discriminate |].
  destruct (_projects_similar k (key cl) orig (repr cl)).
  - injection H as <-. destruct Hx as (c & [<- | Hc] & Hx).
    + cbn in Hx. apply in_app_or in Hx. destruct Hx as [Hx | [Hx | []]].
      * right. exists cl. split; [left; reflexivity | exact Hx].
      * left. symmetry. exact Hx.
    + right. exists c. split; [right; exact Hc | exact Hx].
  - destruct (place k orig r) as [r' |] eqn:E; [| discriminate].
    injection H as <-. destruct Hx as (c & [<- | Hc] & Hx).
    + right. exists cl. split; [left; reflexivity | exact Hx].
    + destruct (IH r' eq_refl) as [Ho | (c' & Hc' & Hx')].
      * exists c. split; assumption.
      * left. exact Ho.
      * right. exists c'. split; [right; exact Hc' | exact Hx'].
Qed.

Lemma cluster_step_members (clusters : list cluster) (orig x : pystr) :
  covered (cluster_step clusters orig) x ->
  (x = orig /\ _proj_norm_key (VStr orig) <> []) \/ covered clusters x.
Proof.
  unfold cluster_step.
  destruct (is_empty (_proj_norm_key (VStr orig))) eqn:E; [auto |].
  assert (Hk : _proj_norm_key (VStr orig) <> []).
  { intros Hk. apply is_empty_true in Hk. congruence. }
  destruct (place _ orig clusters) as [clusters' |] eqn:Ep; intros Hx.
  - destruct (place_members _ _ _ Ep Hx); auto.
  - destruct Hx as (c & Hc & Hx). apply in_app_or in Hc.
    destruct Hc as [Hc | [<- | []]].
    + right. exists c. split; assumption.
    + cbn in Hx. destruct Hx as [<- | []]. left. split; [reflexivity | exact Hk].
Qed.

Lemma fold_cluster_members (uniques : list pystr) (clusters : list cluster)
    (x : pystr) :
  covered (fold_left cluster_step uniques clusters) x ->
  covered clusters x
  \/ (In x uniques /\ _proj_norm_key (VStr x) <> []).
Proof.
  revert clusters. induction uniques as [| o r IH]; intros clusters H; cbn in *.
  - left. exact H.
  - destruct (IH _ H) as [Hc | [Hin Hk]].
    + destruct (cluster_step_members _ _ Hc) as [[-> Hk] | Hc']; auto.
    + right. auto.
Qed.

Lemma build_clusters_members (uniques : list pystr) (x : pystr) :
  covered (build_clusters uniques) x ->
  In x uniques /\ _proj_norm_key (VStr x) <> [].
Proof.
  intros H. destruct (fold_cluster_members _ _ H) as [(c & [] & _) | H'].
  exact H'.
Qed.

(** X8.  The keys of the canonical map are exactly the trimmed texts of
    the values that are not null-like and have a normalised key: nothing
    else gets an entry. *)
Theorem canonical_map_keys :
  forall (project_values : list pyval) (x : pystr),
    (exists canon,
        mapping_find (build_project_canonical_map project_values) x = Some canon)
    <->
    (exists v, In v project_values /\ is_null_like_value v = false
               /\ x = strip (py_str v))
    /\ _proj_norm_key (VStr x) <> [].
Proof.
  intros values x. rewrite <- mapping_find_in, build_map_keys. split.
  - intros H. apply build_clusters_members in H. destruct H as [Hin Hk].
    split; [| exact Hk]. apply count_values_keys.
    apply (Permutation_in _ (Permutation_sym (sorted_uniques_perm _))), Hin.
  - intros [Hv Hk]. apply build_clusters_covers; [| exact Hk].
    apply (Permutation_in _ (sorted_uniques_perm _)).
    apply count_values_keys, Hv.
Qed.

(** *** A column without names *)

Lemma keys_nil (counts : counts_t) : List.map fst counts = [] -> counts = [].
Proof. destruct counts; [reflexivity | discriminate]. Qed.

Lemma count_values_null_like (col : list pyval) :
  forallb is_null_like_value col = true -> count_values col = [].
Proof.
  intros H. apply keys_nil.
  destruct (List.map fst (count_values col)) as [| x r] eqn:E; [reflexivity |].
  assert (Hx : In x (List.map fst (count_values col))) by (rewrite E; left; reflexivity).
  apply count_values_keys in Hx. destruct Hx as (v & Hv & Hn & _).
  rewrite forallb_forall in H. rewrite (H v Hv) in Hn. discriminate.
Qed.

(** X10.  When every value of the column is absent or null-like the map is
    empty and the column is returned as it is: nothing is rewritten to
    ["None"]. *)
Theorem null_like_column_unchanged :
  forall col : list pyval,
    forallb is_null_like_value col = true ->
    build_project_canonical_map col = []
    /\ unify_projects_in_df (Some col) = Some col.
Proof.
  intros col H.
  assert (Hb : build_project_canonical_map col = []).
  { unfold build_project_canonical_map.
    rewrite (count_values_null_like _ H). reflexivity. }
  split; [exact Hb | apply unify_empty_map, Hb].
Qed.

(** X11.  A cell whose value is not null-like and has a normalised key is
    replaced by the label the map has for its trimmed text. *)
Theorem cell_gets_its_label :
  forall (col : list pyval) (i : nat) (v : pyval),
    nth_error col i = Some v ->
    is_null_like_value v = false ->
    _proj_norm_key (VStr (strip (py_str v))) <> [] ->
    exists col' canon,
      unify_projects_in_df (Some col) = Some col'
      /\ mapping_find (build_project_canonical_map col) (strip (py_str v))
         = Some canon
      /\ nth_error col' i = Some (VStr canon).
Proof.
  intros col i v Hi Hn Hk.
  assert (Hc : exists canon,
             mapping_find (build_project_canonical_map col) (strip (py_str v))
             = Some canon).
  { apply mapping_find_in, build_map_keys, build_clusters_covers; [| exact Hk].
    apply (Permutation_in _ (sorted_uniques_perm _)).
    apply count_values_keys. exists v. split; [| auto].
    eapply nth_error_In, Hi. }
  destruct Hc as [canon Hc].
  exists (List.map (_apply (build_project_canonical_map col)) col), canon.
  split; [| split; [exact Hc |]].
  - apply unify_nonempty_map. intros E. rewrite E in Hc. discriminate.
  - rewrite nth_error_map, Hi. cbn. f_equal.
    unfold _apply, is_null_like_value in *.
    destruct v; try discriminate; rewrite Hn, Hc; reflexivity.
Qed.

(** *** Names that are not similar to each other *)

Lemma mapping_find_map (f : pystr -> pystr) (L : list pystr) (x : pystr) :
  In x L -> mapping_find (List.map (fun o => (o, f o)) L) x = Some (f x).
Proof.
  induction L as [| o r IH]; intros H; [destruct H |]. cbn.
  destruct (eqb o x) eqn:E.
  - apply eqb_eq in E. subst o. reflexivity.
  - apply IH. destruct H as [-> | H]; [| exact H].
    rewrite eqb_refl in E. discriminate.
Qed.

(** X12.  When no two different names of a column are similar, nothing is
    merged: every name with a key is mapped to its own canonical form. *)
Theorem dissimilar_names_keep_their_label :
  forall (col : list pyval) (x : pystr),
    names_dissimilar col = true ->
    In x (names_of col) ->
    _proj_norm_key (VStr x) <> [] ->
    mapping_find (build_project_canonical_map col) x = Some (canon_of x).
Proof.
  intros col x Hdis Hin Hk.
  rewrite (build_map_of_dissimilar _ Hdis).
  apply mapping_find_map with (f := canon_of). apply keyed_in. split; [| exact Hk].
  apply (Permutation_in _ (sorted_uniques_perm _)), Hin.
Qed.

(** *** Where the labels come from *)

Lemma max_from_in (f : pystr -> Z) (l : list pystr) (best : pystr) :
  In (max_from f best l) (best :: l).
Proof.
  revert best. induction l as [| x r IH]; intros best; cbn; [auto |].
  destruct (f best <? f x)%Z.
  - right. apply IH.
  - destruct (IH best) as [H | H]; auto.
Qed.

Lemma mapping_set_find (mapping : mapping_t) (m canon x : pystr) :
  mapping_find (mapping_set mapping m canon) x
  = if eqb m x then Some canon else mapping_find mapping x.
Proof.
  induction mapping as [| [k v] r IH]; cbn.
  - reflexivity.
  - destruct (eqb k m) eqn:E; cbn.
    + apply eqb_eq in E. subst k. destruct (eqb m x); reflexivity.
    + rewrite IH. destruct (eqb k x) eqn:Ex; [| reflexivity].
      apply eqb_eq in Ex. subst k. destruct (eqb m x) eqn:E2; [| reflexivity].
      apply eqb_eq in E2. subst m. rewrite eqb_refl in E. discriminate.
Qed.

Lemma fold_set_find (ms : list pystr) (canon : pystr) (mapping : mapping_t)
    (x : pystr) :
  mapping_find
    (fold_left (fun mapping m => mapping_set mapping m canon) ms mapping) x
  = if str_in x ms then Some canon else mapping_find mapping x.
Proof.
  revert mapping. induction ms as [| m r IH]; intros mapping; cbn; [reflexivity |].
  rewrite IH, mapping_set_find. unfold str_in. cbn [existsb].
  destruct (existsb (eqb x) r); [rewrite orb_true_r; reflexivity |].
  rewrite orb_false_r. destruct (eqb m x) eqn:E.
  - apply eqb_eq in E. subst m. rewrite eqb_refl. reflexivity.
  - destruct (eqb x m) eqn:E'; [| reflexivity].
    apply eqb_eq in E'. subst m. rewrite eqb_refl in E. discriminate.
Qed.

Lemma str_in_In (x : pystr) (l : list pystr) : str_in x l = true <-> In x l.
Proof.
  unfold str_in. rewrite existsb_exists. split.
  - intros (y & Hy & E). apply eqb_eq in E. subst y. exact Hy.
  - intros H. exists x. split; [exact H | apply eqb_refl].
Qed.

Lemma label_cluster_find (counts : counts_t) (mapping : mapping_t) (cl : cluster)
    (x : pystr) :
  mapping_find (label_cluster counts mapping cl) x
  = if str_in x (members cl) then Some (cluster_label counts cl)
    else mapping_find mapping x.
Proof.
  unfold label_cluster, cluster_label.
  destruct (members cl) as [| m0 rest] eqn:E; [reflexivity |].
  apply fold_set_find.
Qed.

(** An entry of the map carries the label of a cluster that holds its
    key. *)
Lemma fold_label_find (counts : counts_t) (clusters : list cluster)
    (mapping : mapping_t) (x c : pystr) :
  mapping_find (fold_left (label_cluster counts) clusters mapping) x = Some c ->
  (exists cl, In cl clusters /\ In x (members cl) /\ c = cluster_label counts cl)
  \/ mapping_find mapping x = Some c.
Proof.
  revert mapping. induction clusters as [| cl r IH]; intros mapping H; cbn in H.
  - right. exact H.
  - destruct (IH _ H) as [(cl' & Hcl & Hx & Hc) | H'].
    + left. exists cl'. split; [right; exact Hcl | auto].
    + rewrite label_cluster_find in H'.
      destruct (str_in x (members cl)) eqn:E.
      * left. exists cl. apply str_in_In in E. injection H' as <-.
        split; [left; reflexivity | auto].
      * right. exact H'.
Qed.

(** *** The clusters share no name *)

Lemma place_all_members (k orig : pystr) (clusters clusters' : list cluster) :
  place k orig clusters = Some clusters' ->
  Permutation (orig :: all_members clusters) (all_members clusters').
Proof.
  revert clusters'. induction clusters as [| cl r IH]; intros clusters' H;
    cbn in H; [discriminate |].
  destruct (_projects_similar k (key cl) orig (repr cl)).
  - injection H as <-. unfold all_members. cbn.
    rewrite <- app_assoc. cbn. apply Permutation_middle.
  - destruct (place k orig r) as [r' |] eqn:E; [| discriminate].
    injection H as <-. unfold all_members in *. cbn.
    etransitivity; [apply Permutation_middle |].
    apply Permutation_app_head, IH. reflexivity.
Qed.

Lemma all_members_app (c1 c2 : list cluster) :
  all_members (c1 ++ c2) = all_members c1 ++ all_members c2.
Proof. unfold all_members. rewrite map_app, concat_app. reflexivity. Qed.

Lemma fold_cluster_all_members (uniques : list pystr) (clusters : list cluster) :
  Permutation (all_members (fold_left cluster_step uniques clusters))
    (all_members clusters ++ keyed uniques).
Proof.
  revert clusters. induction uniques as [| o r IH]; intros clusters;
    cbn [fold_left].
  - cbn. rewrite app_nil_r. reflexivity.
  - rewrite IH. unfold cluster_step, keyed. cbn [filter]. fold (keyed r).
    destruct (is_empty (_proj_norm_key (VStr o))) eqn:E; cbn [negb];
      [reflexivity |].
    destruct (place _ o clusters) as [clusters' |] eqn:Ep.
    + rewrite <- (place_all_members _ _ _ Ep). apply Permutation_middle.
    + rewrite all_members_app, <- app_assoc. reflexivity.
Qed.

Lemma build_clusters_nodup (uniques : list pystr) :
  NoDup uniques -> NoDup (all_members (build_clusters uniques)).
Proof.
  intros H. unfold build_clusters.
  eapply Permutation_NoDup;
    [apply Permutation_sym, fold_cluster_all_members |].
  cbn. apply keyed_nodup, H.
Qed.

Lemma nodup_app_disjoint (l1 l2 : list pystr) (x : pystr) :
  NoDup (l1 ++ l2) -> In x l1 -> In x l2 -> False.
Proof.
  induction l1 as [| y l IH]; intros Hnd H1 H2; [destruct H1 |].
  cbn in Hnd. inversion Hnd as [| ? ? Hy Hl]; subst.
  destruct H1 as [-> | H1]; [| exact (IH Hl H1 H2)].
  apply Hy, in_or_app. right. exact H2.
Qed.

Lemma in_all_members (clusters : list cluster) (cl : cluster) (x : pystr) :
  In cl clusters -> In x (members cl) -> In x (all_members clusters).
Proof.
  intros Hc Hx. apply in_concat. exists (members cl).
  split; [apply in_map, Hc | exact Hx].
Qed.

Lemma nodup_one_cluster (clusters : list cluster) (c1 c2 : cluster) (x : pystr) :
  NoDup (all_members clusters) ->
  In c1 clusters -> In c2 clusters ->
  In x (members c1) -> In x (members c2) -> c1 = c2.
Proof.
  induction clusters as [| cl r IH]; intros Hnd H1 H2 Hx1 Hx2; [destruct H1 |].
  change (all_members (cl :: r)) with (members cl ++ all_members r) in Hnd.
  destruct H1 as [<- | H1], H2 as [<- | H2].
  - reflexivity.
  - exfalso. eapply nodup_app_disjoint;
      [exact Hnd | exact Hx1 | eapply in_all_members; eassumption].
  - exfalso. eapply nodup_app_disjoint;
      [exact Hnd | exact Hx2 | eapply in_all_members; eassumption].
  - apply IH; try assumption. apply (NoDup_app_remove_l _ _ Hnd).
Qed.

(** An entry of the map carries the label of the one cluster that holds
    its key. *)
Lemma build_map_find (values : list pyval) (x c : pystr) :
  mapping_find (build_project_canonical_map values) x = Some c ->
  exists cl,
    In cl (build_clusters (sorted_uniques (count_values values)))
    /\ In x (members cl)
    /\ c = cluster_label (count_values values) cl.
Proof.
  unfold build_project_canonical_map.
  destruct (count_values values) as [| p counts] eqn:E; [discriminate |].
  intros H. apply fold_label_find in H.
  destruct H as [H | H]; [exact H | discriminate].
Qed.

Lemma cluster_label_member (counts : counts_t) (cl : cluster) (x : pystr) :
  In x (members cl) ->
  exists m, In m (members cl) /\ cluster_label counts cl = canon_of m.
Proof.
  unfold cluster_label. destruct (members cl) as [| m0 rest]; [intros [] |].
  intros _. eexists. split; [apply max_from_in | reflexivity].
Qed.

(** X9.  Every label of the canonical map is the canonical form of a name
    of the batch that carries this label itself: labels are never made
    up. *)
Theorem labels_come_from_members :
  forall (project_values : list pyval) (x canon : pystr),
    mapping_find (build_project_canonical_map project_values) x = Some canon ->
    exists m,
      mapping_find (build_project_canonical_map project_values) m = Some canon
      /\ canon = canon_of m.
Proof.
  intros values x canon H.
  destruct (build_map_find _ _ H) as (cl & Hcl & Hx & Hc).
  destruct (cluster_label_member (count_values values) _ _ Hx) as (m & Hm & Hl).
  exists m. split; [| congruence].
  assert (Hkey : exists c', mapping_find (build_project_canonical_map values) m
                            = Some c').
  { apply mapping_find_in, build_map_keys. exists cl. split; assumption. }
  destruct Hkey as [c' Hc'].
  destruct (build_map_find _ _ Hc') as (cl' & Hcl' & Hm' & Hc'').
  assert (cl' = cl).
  { eapply nodup_one_cluster; try eassumption.
    apply build_clusters_nodup.
    eapply Permutation_NoDup;
      [apply sorted_uniques_perm | apply count_values_nodup]. }
  subst cl'. congruence.
Qed.

End MapFacts.

Lemma null_like_column_unchanged_witness :
  build_project_canonical_map (U := ascii_only) null_like_column = []
  /\ unify_projects_in_df (U := ascii_only) (Some null_like_column)
     = Some null_like_column.
Proof.
  apply (@null_like_column_unchanged ascii_only). vm_compute. reflexivity.
Defined.

Lemma cell_gets_its_label_witness :
  exists col' canon,
    unify_projects_in_df (U := ascii_only) (Some two_projects_batch) = Some col'
    /\ mapping_find
         (build_project_canonical_map (U := ascii_only) two_projects_batch)
         (strip (py_str (VStr (py " Zeta-2 ")))) = Some canon
    /\ nth_error col' 8 = Some (VStr canon).
Proof.
  apply (@cell_gets_its_label ascii_only two_projects_batch 8
           (VStr (py " Zeta-2 "))).
  - reflexivity.
  - vm_compute. reflexivity.
  - vm_compute. discriminate.
Defined.

Lemma dissimilar_names_keep_their_label_witness :
  mapping_find
    (build_project_canonical_map (U := ascii_only)
       [VStr (py "proyecto alpha"); VStr (py "Zeta-2"); VStr (py "beta")])
    (py "proyecto alpha")
  = Some (canon_of (U := ascii_only) (py "proyecto alpha")).
Proof.
  apply (@dissimilar_names_keep_their_label ascii_only).
  - vm_compute. reflexivity.
  - vm_compute. tauto.
  - vm_compute. discriminate.
Defined.

Lemma labels_come_from_members_witness :
  exists m,
    mapping_find (build_project_canonical_map (U := ascii_only) alpha_batch) m
    = Some (py "Alpha")
    /\ py "Alpha" = canon_of (U := ascii_only) m.
Proof.
  apply (@labels_come_from_members ascii_only alpha_batch (py "ALPHA")).
  vm_compute. reflexivity.
Defined.

(** * Tokens of a normalised key *)

Lemma split_aux_tokens (s cur : pystr) :
  Forall (fun c => isspace c = false) cur -> Forall tok_ok (split_aux cur s).
Proof.
  revert cur. induction s as [| c r IH]; intros cur Hcur; cbn.
  - destruct cur as [| x cur']; [constructor |].
    constructor; [| constructor]. split.
    + intros E. apply (f_equal (@length _)) in E.
      rewrite length_rev in E. discriminate.
    + apply Forall_rev, Hcur.
  - destruct (isspace c) eqn:E.
    + destruct cur as [| x cur']; [apply IH; constructor |].
      constructor; [| apply IH; constructor]. split.
      * intros E'. apply (f_equal (@length _)) in E'.
        rewrite length_rev in E'. discriminate.
      * apply Forall_rev, Hcur.
    + apply IH. constructor; assumption.
Qed.

Lemma split_tokens (s : pystr) : Forall tok_ok (split s).
Proof. apply split_aux_tokens. constructor. Qed.

Lemma split_aux_app (t cur r : pystr) :
  Forall (fun c => isspace c = false) t ->
  split_aux cur (t ++ r) = split_aux (rev t ++ cur) r.
Proof.
  intros H. revert cur. induction H as [| c t' Hc _ IH]; intros cur; cbn.
  - reflexivity.
  - rewrite Hc, IH, <- app_assoc. reflexivity.
Qed.

(** Splitting what [join] put together gives the tokens back. *)
Lemma split_join (toks : list pystr) :
  Forall tok_ok toks -> split (join toks) = toks.
Proof.
  unfold split. induction 1 as [| t r [Hne Hsp] Hr IH]; [reflexivity |].
  destruct r as [| t2 r'].
  - cbn [join]. rewrite <- (app_nil_r t) at 1.
    rewrite (split_aux_app _ _ Hsp), app_nil_r. cbn.
    destruct (rev t) as [| x l] eqn:E.
    + apply (f_equal (@rev _)) in E. rewrite rev_involutive in E. contradiction.
    + rewrite <- E, rev_involutive. reflexivity.
  - change (join (t :: t2 :: r')) with (t ++ SP :: join (t2 :: r')).
    rewrite (split_aux_app _ _ Hsp), app_nil_r. cbn [split_aux].
    rewrite isspace_SP.
    destruct (rev t) as [| x l] eqn:E.
    + apply (f_equal (@rev _)) in E. rewrite rev_involutive in E. contradiction.
    + rewrite <- E, rev_involutive, IH. reflexivity.
Qed.

Lemma rstrip_nonspace (t : pystr) :
  Forall (fun c => isspace c = false) t -> rstrip t = t.
Proof.
  induction 1 as [| c t' Hc _ IH]; [reflexivity |]. cbn. rewrite IH, Hc.
  destruct t'; reflexivity.
Qed.

Lemma rstrip_app (x y : pystr) :
  rstrip y <> [] -> rstrip (x ++ y) = x ++ rstrip y.
Proof.
  intros H. induction x as [| c x IH]; [reflexivity |].
  cbn. rewrite IH. destruct (x ++ rstrip y) eqn:E; [| reflexivity].
  apply app_eq_nil in E. destruct E as [_ E]. contradiction.
Qed.

Lemma join_nil (toks : list pystr) :
  Forall tok_ok toks -> join toks = [] -> toks = [].
Proof.
  intros H E. destruct H as [| t r [Hne _] _]; [reflexivity |].
  exfalso. destruct r; cbn in E; [contradiction |].
  apply app_eq_nil in E. destruct E as [E _]. contradiction.
Qed.

Lemma rstrip_join (toks : list pystr) :
  Forall tok_ok toks -> rstrip (join toks) = join toks.
Proof.
  induction 1 as [| t r [Hne Hsp] Hr IH]; [reflexivity |].
  destruct r as [| t2 r'].
  - cbn [join]. apply rstrip_nonspace, Hsp.
  - change (join (t :: t2 :: r')) with (t ++ SP :: join (t2 :: r')).
    assert (Hj : join (t2 :: r') <> []).
    { intros E. apply (join_nil Hr) in E. discriminate. }
    assert (Hs : rstrip (SP :: join (t2 :: r')) = SP :: join (t2 :: r')).
    { cbn [rstrip]. rewrite IH. destruct (join (t2 :: r')); [contradiction | reflexivity]. }
    rewrite rstrip_app; rewrite Hs; [reflexivity | discriminate].
Qed.

Lemma lstrip_join (toks : list pystr) :
  Forall tok_ok toks -> lstrip (join toks) = join toks.
Proof.
  intros H. destruct H as [| t r [Hne Hsp] _]; [reflexivity |].
  destruct t as [| c t']; [contradiction |].
  inversion Hsp as [| ? ? Hc _]; subst.
  destruct r; cbn; rewrite Hc; reflexivity.
Qed.

(** Joined tokens need no trimming. *)
Lemma strip_join (toks : list pystr) :
  Forall tok_ok toks -> strip (join toks) = join toks.
Proof.
  intros H. unfold strip. rewrite (lstrip_join H). apply rstrip_join, H.
Qed.

Lemma Forall_dropwhile {A} (P : A -> Prop) (p : A -> bool) (l : list A) :
  Forall P l -> Forall P (dropwhile p l).
Proof.
  induction 1 as [| x r Hx Hr IH]; cbn; [constructor |].
  destruct (p x); [exact IH | constructor; assumption].
Qed.

Lemma dropwhile_head {A} (p : A -> bool) (l : list A) (x : A) (r : list A) :
  dropwhile p l = x :: r -> p x = false.
Proof.
  induction l as [| y l IH]; cbn; [discriminate |].
  destruct (p y) eqn:E; [exact IH |]. intros H. injection H as <- _. exact E.
Qed.

Lemma dropwhile_suffix {A} (p : A -> bool) (l : list A) :
  exists pre, l = pre ++ dropwhile p l.
Proof.
  induction l as [| y l [pre IH]]; cbn; [exists []; reflexivity |].
  destruct (p y).
  - exists (y :: pre). cbn. f_equal. exact IH.
  - exists []. reflexivity.
Qed.

Lemma Forall_head_loop (P : pystr -> Prop) (fuel : nat) (toks : list pystr) :
  Forall P toks -> Forall P (head_loop fuel toks).
Proof.
  revert toks. induction fuel as [| fuel IH]; intros toks H; cbn [head_loop];
    [exact H |].
  destruct toks as [| t r]; [constructor |].
  destruct (str_in t _GENERIC_HEAD_TOKENS); [| exact H].
  apply IH, Forall_dropwhile. inversion H; assumption.
Qed.

(** When the loop stops, the first token is not a generic one. *)
Lemma head_loop_head (fuel : nat) (toks : list pystr) (t : pystr)
    (rest : list pystr) :
  length toks <= fuel ->
  head_loop fuel toks = t :: rest ->
  str_in t _GENERIC_HEAD_TOKENS = false.
Proof.
  revert toks. induction fuel as [| fuel IH]; intros toks Hlen H.
  - destruct toks; [discriminate | cbn in Hlen; lia].
  - cbn [head_loop] in H. destruct toks as [| t0 r]; [discriminate |].
    destruct (str_in t0 _GENERIC_HEAD_TOKENS) eqn:E.
    + apply (IH _) in H; [exact H |]. cbn in Hlen.
      pose proof (dropwhile_length (fun t => str_in t _PROJECT_STOPWORDS) r). lia.
    + injection H as <- _. exact E.
Qed.

Section KeyTokens.
Context {U : UnicodeDB}.

(** The tokens left by the head loop and by the tail loop. *)
Lemma strip_head_join (k : pystr) :
  _strip_generic_head_tokens k
  = join (head_loop (length (split k)) (split k)).
Proof.
  unfold _strip_generic_head_tokens. destruct k as [| c r]; [reflexivity |].
  apply strip_join, Forall_head_loop, split_tokens.
Qed.

Lemma strip_tail_join (toks : list pystr) :
  Forall tok_ok toks ->
  _strip_generic_tail_tokens (join toks)
  = join (rev (dropwhile (fun t => str_in t _GENERIC_TAIL_TOKENS) (rev toks))).
Proof.
  intros H. unfold _strip_generic_tail_tokens.
  destruct (join toks) as [| c r] eqn:E.
  - rewrite (join_nil H E). reflexivity.
  - rewrite <- E, (split_join H).
    apply strip_join, Forall_rev, Forall_dropwhile, Forall_rev, H.
Qed.

(** X13.  A normalised key neither starts nor ends with a generic token
    ("implementation", "implementacion", "impl"). *)
Theorem key_has_no_generic_ends :
  forall s : pyval,
    match split (_proj_norm_key s) with
    | [] => True
    | t :: _ => str_in t _GENERIC_HEAD_TOKENS = false
    end
    /\ match rev (split (_proj_norm_key s)) with
       | [] => True
       | t :: _ => str_in t _GENERIC_TAIL_TOKENS = false
       end.
Proof.
  intros s. unfold _proj_norm_key.
  set (raw := _proj_norm_key_raw s).
  rewrite strip_head_join.
  set (H := head_loop (length (split raw)) (split raw)).
  assert (HH : Forall tok_ok H) by apply Forall_head_loop, split_tokens.
  rewrite (strip_tail_join HH).
  set (p := fun t => str_in t _GENERIC_TAIL_TOKENS).
  assert (HT : Forall tok_ok (rev (dropwhile p (rev H))))
    by apply Forall_rev, Forall_dropwhile, Forall_rev, HH.
  rewrite (split_join HT), rev_involutive. split.
  - destruct (dropwhile_suffix p (rev H)) as [pre Hpre].
    apply (f_equal (@rev _)) in Hpre.
    rewrite rev_involutive, rev_app_distr in Hpre.
    destruct (rev (dropwhile p (rev H))) as [| t T]; [exact I |].
    eapply head_loop_head with (fuel := length (split raw)); [apply le_n |].
    fold H. rewrite Hpre. reflexivity.
  - destruct (dropwhile p (rev H)) as [| t D] eqn:E; [exact I |].
    apply (dropwhile_head _ _ E).
Qed.

End KeyTokens.

(** * Spam and phishing detection *)

Lemma lower_ascii (U : UnicodeDB) (s : pystr) :
  all_ascii s = true -> lower s = List.map ascii_lower s.
Proof. intros H. unfold lower. rewrite H. reflexivity. Qed.

Lemma ascii_lower_not_AZ (c : char) : is_AZ (ascii_lower c) = false.
Proof.
  unfold ascii_lower, is_AZ, in_range.
  destruct (65 <=? c)%N eqn:E1; destruct (c <=? 90)%N eqn:E2; cbn [andb];
    rewrite ?E1, ?E2; cbn [andb]; try reflexivity.
  apply N.leb_le in E1. apply N.leb_le in E2.
  apply andb_false_iff. right. apply N.leb_gt. lia.
Qed.

Lemma startswith_in (p s : pystr) (x : char) :
  startswith p s = true -> In x p -> In x s.
Proof.
  revert s. induction p as [| a p IH]; intros s H Hin; [destruct Hin |].
  destruct s as [| b s]; [discriminate |]. cbn in H.
  apply andb_prop in H. destruct H as [Hab H]. apply N.eqb_eq in Hab. subst b.
  destruct Hin as [-> | Hin]; [left; reflexivity | right; apply IH; assumption].
Qed.

Lemma contains_in (p s : pystr) (x : char) :
  contains p s = true -> In x p -> In x s.
Proof.
  intros H Hin. induction s as [| b s IH].
  - cbn in H. rewrite orb_false_r in H. eapply startswith_in; eassumption.
  - cbn [contains] in H. apply orb_prop in H. destruct H as [H | H].
    + eapply startswith_in; eassumption.
    + right. apply IH, H.
Qed.

Lemma count_from_absent (needle hay : pystr) (skip : nat) :
  contains needle hay = false -> Security.count_from needle skip hay = 0.
Proof.
  revert skip. induction hay as [| c r IH]; intros skip H; [reflexivity |].
  cbn [contains] in H. apply orb_false_elim in H. destruct H as [Hs Hc].
  cbn [Security.count_from]. destruct skip as [| k]; [| apply IH, Hc].
  rewrite Hs. apply IH, Hc.
Qed.

(** Lower-cased text holds no upper-case letter, so no ["[URL]"] token. *)
Lemma url_count_lowered (s : pystr) :
  Security.count_sub (py "[URL]") (List.map ascii_lower s) = 0%Z.
Proof.
  unfold Security.count_sub. rewrite count_from_absent; [reflexivity |].
  destruct (contains (py "[URL]") (List.map ascii_lower s)) eqn:E; [| reflexivity].
  exfalso. assert (Hin : In 85%N (List.map ascii_lower s)).
  { eapply contains_in; [exact E |]. cbn. tauto. }
  apply in_map_iff in Hin. destruct Hin as [c [Hc _]].
  pose proof (ascii_lower_not_AZ c) as H. rewrite Hc in H. discriminate.
Qed.

Lemma all_ascii_app (a b : pystr) :
  all_ascii (a ++ b) = all_ascii a && all_ascii b.
Proof. apply forallb_app. Qed.

Lemma message_ascii (subject body sender_addr : pystr) :
  all_ascii subject = true -> all_ascii body = true ->
  all_ascii sender_addr = true ->
  all_ascii (subject ++ SP :: body ++ SP :: sender_addr) = true.
Proof.
  intros H1 H2 H3. rewrite all_ascii_app, H1. cbn.
  change (forallb is_ascii (body ++ SP :: sender_addr))
    with (all_ascii (body ++ SP :: sender_addr)).
  rewrite all_ascii_app, H2. cbn. exact H3.
Qed.

Lemma count_in_nonneg (kws : list pystr) (s : pystr) :
  (0 <= Security.count_in kws s)%Z.
Proof. unfold Security.count_in. lia. Qed.

Ltac split_ifs :=
  repeat match goal with
         | |- context [if ?b then _ else _] => destruct b eqn:?
         end.

Section DetectionFacts.
Context {U : UnicodeDB}.

(** X14.  The phishing score lies between 0 and 13: the cap of 20 in the
    last statement is never applied. *)
Theorem phishing_score_below_cap :
  forall subject body sender_addr : pystr,
    (0 <= Security.phishing_score subject body sender_addr <= 13)%Z.
Proof.
  intros. unfold Security.phishing_score. cbv zeta. split_ifs; lia.
Qed.

(** On ASCII text the score is the sum of four parts; links never count,
    the text being searched for ["[URL]"] after it was put in lower case. *)
Lemma phishing_score_ascii (subject body sender_addr : pystr) :
  all_ascii subject = true -> all_ascii body = true ->
  all_ascii sender_addr = true ->
  let s := lower (subject ++ SP :: body ++ SP :: sender_addr) in
  let urgent_count := Security.count_in Security.urgent s in
  Security.phishing_score subject body sender_addr
  = ((if any_in Security.phishing_keywords s then 3 else 0)
     + (if any_in Security.spam_keywords s then 2 else 0)
     + (if 2 <=? urgent_count then 3 else if urgent_count =? 1 then 1 else 0)
     + (if contains [AT] sender_addr
           && (20 <? Security.local_part_length sender_addr)
        then 1 else 0))%Z.
Proof.
  intros H1 H2 H3. cbv zeta. unfold Security.phishing_score. cbv zeta.
  rewrite (lower_ascii U _ (message_ascii _ _ _ H1 H2 H3)).
  rewrite url_count_lowered.
  change (5 <=? 0)%Z with false. change (3 <=? 0)%Z with false. cbv iota.
  split_ifs; reflexivity.
Qed.

(** X15.  On ASCII text the score is at most 9: the text is searched for
    ["[URL]"] after it has been put in lower case, so links never count and
    the threshold of 10 is out of reach. *)
Theorem phishing_score_ascii_bound :
  forall subject body sender_addr : pystr,
    all_ascii subject = true -> all_ascii body = true ->
    all_ascii sender_addr = true ->
    (Security.phishing_score subject body sender_addr <= 9)%Z.
Proof.
  intros subject body sender_addr H1 H2 H3.
  rewrite (phishing_score_ascii _ _ _ H1 H2 H3). cbv zeta.
  split_ifs; lia.
Qed.

(** X16.  On ASCII text [is_phishing] is a closed formula of the signals:
    a phishing keyword, then either two urgency words with a spam keyword
    or a long local part, or one urgency word with both; and a sender
    domain that is found and not trusted. *)
Theorem is_phishing_formula :
  forall subject body sender_addr : pystr,
    all_ascii subject = true -> all_ascii body = true ->
    all_ascii sender_addr = true ->
    let s := lower (subject ++ SP :: body ++ SP :: sender_addr) in
    let urgent_count := Security.count_in Security.urgent s in
    let long_local :=
      contains [AT] sender_addr
      && (20 <? Security.local_part_length sender_addr)%Z in
    let spam_kw := any_in Security.spam_keywords s in
    Security.is_phishing subject body sender_addr
    = any_in Security.phishing_keywords s
      && ((2 <=? urgent_count)%Z && (spam_kw || long_local)
          || (urgent_count =? 1)%Z && spam_kw && long_local)
      && negb (is_empty (sender_domain sender_addr))
      && negb (str_in (sender_domain sender_addr) TRUSTED_SENDER_DOMAINS).
Proof.
  intros subject body sender_addr H1 H2 H3. cbv zeta.
  unfold Security.is_phishing. cbv zeta.
  rewrite (phishing_score_ascii _ _ _ H1 H2 H3). cbv zeta.
  destruct (any_in Security.phishing_keywords _);
    destruct (any_in Security.spam_keywords _);
    destruct (contains [AT] sender_addr && _);
    destruct (is_empty _); destruct (str_in _ _);
    destruct (2 <=? _)%Z eqn:E2; destruct (_ =? 1)%Z eqn:E1;
    try reflexivity;
    apply Z.leb_le in E2; apply Z.eqb_eq in E1; lia.
Qed.

(** X17.  A sender whose domain is on the trusted list is flagged neither
    as phishing nor as spam, whatever the text says. *)
Theorem trusted_domain_never_flagged :
  forall subject body sender_addr : pystr,
    all_ascii subject = true -> all_ascii body = true ->
    all_ascii sender_addr = true ->
    str_in (sender_domain sender_addr) TRUSTED_SENDER_DOMAINS = true ->
    Security.is_phishing subject body sender_addr = false
    /\ Security.is_spam subject body sender_addr = false.
Proof.
  intros subject body sender_addr H1 H2 H3 Ht. split.
  - unfold Security.is_phishing. cbv zeta.
    rewrite (phishing_score_ascii _ _ _ H1 H2 H3), Ht. cbv zeta.
    cbn [negb]. rewrite andb_false_r.
    destruct (any_in Security.phishing_keywords _);
      destruct (any_in Security.spam_keywords _);
      destruct (contains [AT] sender_addr && _);
      destruct (2 <=? _)%Z; try destruct (_ =? 1)%Z; reflexivity.
  - unfold Security.is_spam. cbv zeta. rewrite Ht. reflexivity.
Qed.

End DetectionFacts.

Lemma phishing_score_ascii_bound_witness :
  (Security.phishing_score (U := ascii_only) lure_subject lure_body lure_sender
   <= 9)%Z.
Proof.
  apply (@phishing_score_ascii_bound ascii_only); vm_compute; reflexivity.
Defined.

Lemma is_phishing_formula_witness :
  Security.is_phishing (U := ascii_only) lure_subject lure_body lure_sender
  = true.
Proof.
  rewrite (@is_phishing_formula ascii_only lure_subject lure_body lure_sender);
    vm_compute; reflexivity.
Defined.

Lemma trusted_domain_never_flagged_witness :
  Security.is_phishing (U := ascii_only) lure_subject lure_body
    (py "it-support@Sandoz.com") = false
  /\ Security.is_spam (U := ascii_only) lure_subject lure_body
       (py "it-support@Sandoz.com") = false.
Proof.
  apply (@trusted_domain_never_flagged ascii_only); vm_compute; reflexivity.
Defined.

(** * The sender's domain *)

Lemma take_while_forallb (p : char -> bool) (s : pystr) :
  forallb p (take_while p s) = true.
Proof.
  induction s as [| c r IH]; [reflexivity |]. cbn.
  destruct (p c) eqn:E; [cbn; rewrite E; exact IH | reflexivity].
Qed.

Lemma take_while_prefix (p : char -> bool) (s : pystr) :
  exists post, s = take_while p s ++ post.
Proof.
  induction s as [| c r [post IH]]; [exists []; reflexivity |]. cbn.
  destruct (p c).
  - exists post. cbn. f_equal. exact IH.
  - exists (c :: r). reflexivity.
Qed.

Lemma match_tld_shape (s m : pystr) :
  match_tld s = Some m -> domain_shape true s m.
Proof.
  unfold match_tld. destruct s as [| c r]; [discriminate |].
  destruct (N.eqb c DOT) eqn:E; [| discriminate].
  apply N.eqb_eq in E. subst c. cbv zeta.
  destruct (2 <=? length (take_while is_letter r)) eqn:E2; [| discriminate].
  intros H. injection H as <-. apply Nat.leb_le in E2.
  destruct (take_while_prefix is_letter r) as [post Hpost].
  exists [], (take_while is_letter r), post. cbn.
  repeat split; try assumption.
  - f_equal. exact Hpost.
  - discriminate.
  - apply take_while_forallb.
Qed.

Lemma match_rest_shape (s m : pystr) :
  match_rest s = Some m -> domain_shape true s m.
Proof.
  revert m. induction s as [| c r IH]; intros m; [discriminate |].
  cbn [match_rest]. destruct (dom_char c) eqn:Ec.
  - destruct (match_rest r) as [m' |] eqn:Er.
    + intros H. injection H as <-.
      destruct (IH _ eq_refl) as (host & tld & post & -> & -> & _ & Hh & Ht & Hl).
      exists (c :: host), tld, post. cbn. rewrite Ec, Hh.
      repeat split; try assumption. discriminate.
    + apply match_tld_shape.
  - apply match_tld_shape.
Qed.

Lemma match_domain_shape (s m : pystr) :
  match_domain s = Some m -> domain_shape false s m.
Proof.
  unfold match_domain. destruct s as [| c r]; [discriminate |].
  destruct (dom_char c) eqn:Ec; [| discriminate].
  destruct (match_rest r) as [m' |] eqn:Er; [| discriminate].
  intros H. injection H as <-.
  destruct (match_rest_shape _ Er) as (host & tld & post & -> & -> & _ & Hh & Ht & Hl).
  exists (c :: host), tld, post. cbn. rewrite Ec, Hh.
  repeat split; try assumption. discriminate.
Qed.

Lemma search_domain_shape (addr m : pystr) :
  search_domain addr = Some m ->
  exists pre suf, addr = pre ++ AT :: suf /\ domain_shape false suf m.
Proof.
  induction addr as [| c r IH]; [discriminate |]. cbn [search_domain].
  destruct (N.eqb c AT) eqn:E.
  - destruct (match_domain r) as [m' |] eqn:Em.
    + intros H. injection H as <-. apply N.eqb_eq in E. subst c.
      exists [], r. split; [reflexivity | apply match_domain_shape, Em].
    + intros H. destruct (IH H) as (pre & suf & -> & Hs).
      exists (c :: pre), suf. split; [reflexivity | exact Hs].
  - intros H. destruct (IH H) as (pre & suf & -> & Hs).
    exists (c :: pre), suf. split; [reflexivity | exact Hs].
Qed.

Lemma dom_char_ascii (c : char) : dom_char c = true -> is_ascii c = true.
Proof.
  unfold dom_char, is_letter, is_az, is_AZ, is_09, in_range, is_ascii, DOT.
  intros H. apply N.ltb_lt.
  repeat (apply orb_prop in H; destruct H as [H | H]);
    try (apply andb_prop in H; destruct H as [H1 H2];
         apply N.leb_le in H1; apply N.leb_le in H2; lia);
    apply N.eqb_eq in H; lia.
Qed.

Lemma is_letter_dom_char (c : char) : is_letter c = true -> dom_char c = true.
Proof. unfold dom_char. intros ->. reflexivity. Qed.

Lemma dom_char_lower (c : char) :
  dom_char c = true -> low_dom_char (ascii_lower c) = true.
Proof.
  unfold dom_char, low_dom_char, is_letter, ascii_lower.
  destruct (is_AZ c) eqn:EA.
  - intros _. unfold is_AZ, in_range in EA. apply andb_prop in EA.
    destruct EA as [H1 H2]. apply N.leb_le in H1. apply N.leb_le in H2.
    assert (H : is_az (c + 32)%N = true).
    { unfold is_az, in_range. apply andb_true_intro.
      split; apply N.leb_le; lia. }
    rewrite H. reflexivity.
  - rewrite orb_false_r. exact (fun H => H).
Qed.

Lemma is_letter_lower (c : char) :
  is_letter c = true -> is_az (ascii_lower c) = true.
Proof.
  unfold is_letter, ascii_lower. destruct (is_AZ c) eqn:EA.
  - intros _. unfold is_AZ, in_range in EA. apply andb_prop in EA.
    destruct EA as [H1 H2]. apply N.leb_le in H1. apply N.leb_le in H2.
    unfold is_az, in_range. apply andb_true_intro. split; apply N.leb_le; lia.
  - rewrite orb_false_r. exact (fun H => H).
Qed.

Lemma forallb_map_lower (p q : char -> bool) (s : pystr) :
  (forall c, p c = true -> q (ascii_lower c) = true) ->
  forallb p s = true -> forallb q (List.map ascii_lower s) = true.
Proof.
  intros Hpq. induction s as [| c r IH]; [reflexivity |]. cbn.
  intros H. apply andb_prop in H. destruct H as [Hc Hr].
  rewrite (Hpq _ Hc), (IH Hr). reflexivity.
Qed.

Lemma forallb_weaken (p q : char -> bool) (s : pystr) :
  (forall c, p c = true -> q c = true) ->
  forallb p s = true -> forallb q s = true.
Proof.
  intros Hpq. induction s as [| c r IH]; [reflexivity |]. cbn.
  intros H. apply andb_prop in H. destruct H as [Hc Hr].
  rewrite (Hpq _ Hc), (IH Hr). reflexivity.
Qed.

Lemma shape_ascii (b : bool) (s m : pystr) :
  domain_shape b s m -> all_ascii m = true.
Proof.
  intros (host & tld & post & -> & _ & _ & Hh & Ht & _).
  rewrite all_ascii_app. cbn.
  unfold all_ascii. rewrite (forallb_weaken _ _ _ dom_char_ascii Hh).
  apply (forallb_weaken is_letter is_ascii); [| exact Ht].
  intros c Hc. apply dom_char_ascii, is_letter_dom_char, Hc.
Qed.

Section DomainFacts.
Context {U : UnicodeDB}.

(** X18.  The sender's domain is empty or of the form host.tld: a
    non-empty host of lower-case letters, digits, dots and hyphens, a dot,
    and a last label of two or more lower-case letters. *)
Theorem sender_domain_shape :
  forall addr : pystr,
    sender_domain addr = []
    \/ exists host tld,
         sender_domain addr = host ++ DOT :: tld
         /\ host <> []
         /\ forallb low_dom_char host = true
         /\ forallb is_az tld = true
         /\ 2 <= length tld.
Proof.
  intros addr. unfold sender_domain.
  destruct (search_domain addr) as [m |] eqn:E; [right | left; reflexivity].
  destruct (search_domain_shape _ E) as (pre & suf & _ & Hs).
  rewrite (lower_ascii U _ (shape_ascii Hs)).
  destruct Hs as (host & tld & post & -> & _ & Hne & Hh & Ht & Hl).
  exists (List.map ascii_lower host), (List.map ascii_lower tld).
  rewrite map_app. cbn [List.map]. repeat split.
  - intros H. apply map_eq_nil in H. exact (Hne eq_refl H).
  - apply (forallb_map_lower dom_char); [exact dom_char_lower | exact Hh].
  - apply (forallb_map_lower is_letter); [exact is_letter_lower | exact Ht].
  - rewrite length_map. exact Hl.
Qed.

End DomainFacts.

(** * Two notions of a trusted sender *)

Lemma startswith_app (d y : pystr) : startswith d (d ++ y) = true.
Proof.
  induction d as [| c d IH]; [reflexivity |]. cbn. rewrite N.eqb_refl. exact IH.
Qed.

Lemma contains_start (p s : pystr) : startswith p s = true -> contains p s = true.
Proof. intros H. destruct s; cbn [contains]; rewrite H; reflexivity. Qed.

Lemma contains_skip (d x s : pystr) :
  contains d s = true -> contains d (x ++ s) = true.
Proof.
  intros H. induction x as [| c x IH]; [exact H |].
  cbn [app contains]. rewrite IH. apply orb_true_r.
Qed.

Lemma contains_app_mid (d x y : pystr) : contains d (x ++ d ++ y) = true.
Proof. apply contains_skip, contains_start, startswith_app. Qed.

Lemma ascii_lower_idem (c : char) : ascii_lower (ascii_lower c) = ascii_lower c.
Proof.
  unfold ascii_lower at 1. rewrite ascii_lower_not_AZ. reflexivity.
Qed.

Lemma map_lower_idem (s : pystr) :
  List.map ascii_lower (List.map ascii_lower s) = List.map ascii_lower s.
Proof.
  rewrite map_map. apply map_ext. exact ascii_lower_idem.
Qed.

Lemma ascii_lower_ascii (c : char) : is_ascii (ascii_lower c) = is_ascii c.
Proof.
  unfold ascii_lower, is_AZ, in_range, is_ascii.
  destruct (65 <=? c)%N eqn:E1; destruct (c <=? 90)%N eqn:E2; cbn [andb];
    try reflexivity.
  apply N.leb_le in E1. apply N.leb_le in E2.
  transitivity true; [| symmetry]; apply N.ltb_lt; lia.
Qed.

Lemma all_ascii_map_lower (s : pystr) :
  all_ascii (List.map ascii_lower s) = all_ascii s.
Proof.
  unfold all_ascii. induction s as [| c r IH]; [reflexivity |].
  cbn. rewrite ascii_lower_ascii, IH. reflexivity.
Qed.

Section TrustFacts.
Context {U : UnicodeDB}.

(** X19.  The cascade of [map_to_priority] looks for a trusted domain
    anywhere in the sender text, the detectors compare the extracted domain:
    on ASCII text a sender whose extracted domain is on the list is trusted
    by the cascade as well, whatever surrounds the address. *)
Theorem exact_trust_implies_cascade_trust :
  forall pre addr post : pystr,
    all_ascii (pre ++ addr ++ post) = true ->
    str_in (sender_domain addr) TRUSTED_SENDER_DOMAINS = true ->
    cascade_trusted (pre ++ addr ++ post) = true.
Proof.
  intros pre addr post Ha Ht. unfold sender_domain in Ht.
  destruct (search_domain addr) as [m |] eqn:E; [| discriminate].
  destruct (search_domain_shape _ E) as (p1 & suf & -> & Hs).
  rewrite (lower_ascii U _ (shape_ascii Hs)) in Ht.
  destruct Hs as (host & tld & p2 & Hm & -> & _).
  unfold str_in in Ht. apply existsb_exists in Ht.
  destruct Ht as (t & Hin & Heq). apply eqb_eq in Heq.
  unfold cascade_trusted. apply existsb_exists. exists t. split; [exact Hin |].
  rewrite (lower_ascii U _ Ha). subst t.
  replace (pre ++ (p1 ++ AT :: m ++ p2) ++ post)
    with ((pre ++ p1 ++ [AT]) ++ m ++ (p2 ++ post)).
  - rewrite !map_app. apply contains_app_mid.
  - repeat (rewrite <- app_assoc; cbn [app]). reflexivity.
Qed.

End TrustFacts.

Lemma exact_trust_implies_cascade_trust_witness :
  cascade_trusted (U := ascii_only)
    (py "Ana Ruiz <" ++ py "ana.ruiz@Sandoz.com" ++ py ">") = true.
Proof.
  apply (@exact_trust_implies_cascade_trust ascii_only); vm_compute; reflexivity.
Defined.

(** The cascade trusts more: a trusted name inside a longer domain. *)
Lemma cascade_trust_is_wider :
  cascade_trusted (U := ascii_only) (py "x@sandoz.com.evil.org") = true
  /\ str_in (sender_domain (U := ascii_only) (py "x@sandoz.com.evil.org"))
       TRUSTED_SENDER_DOMAINS = false.
Proof. vm_compute. split; reflexivity. Qed.

(** * Letter case *)

Lemma AZ_cases (c : char) :
  is_AZ c = true -> (65 <= c <= 90)%N.
Proof.
  unfold is_AZ, in_range. intros H. apply andb_prop in H.
  destruct H as [H1 H2]. apply N.leb_le in H1. apply N.leb_le in H2. lia.
Qed.

Lemma lowered_is_az (c : char) : is_AZ c = true -> is_az (c + 32)%N = true.
Proof.
  intros H. apply AZ_cases in H. unfold is_az, in_range.
  apply andb_true_intro. split; apply N.leb_le; lia.
Qed.

Lemma is_letter_case (c : char) : is_letter (ascii_lower c) = is_letter c.
Proof.
  unfold is_letter, ascii_lower. destruct (is_AZ c) eqn:E.
  - rewrite (lowered_is_az _ E). cbn. symmetry. apply orb_true_r.
  - rewrite E. reflexivity.
Qed.

Lemma eqb_case (c k : char) :
  is_AZ k = false -> is_az k = false ->
  N.eqb (ascii_lower c) k = N.eqb c k.
Proof.
  intros Hk Hk'. unfold ascii_lower. destruct (is_AZ c) eqn:E; [| reflexivity].
  transitivity false; [| symmetry]; apply N.eqb_neq; intros H.
  - pose proof (lowered_is_az _ E) as H'. rewrite H in H'. congruence.
  - subst k. congruence.
Qed.

Lemma is_09_case (c : char) : is_09 (ascii_lower c) = is_09 c.
Proof.
  unfold ascii_lower. destruct (is_AZ c) eqn:E; [| reflexivity].
  apply AZ_cases in E. unfold is_09, in_range.
  transitivity false; [| symmetry]; apply andb_false_iff; right;
    apply N.leb_gt; lia.
Qed.

Lemma dom_char_case (c : char) : dom_char (ascii_lower c) = dom_char c.
Proof.
  unfold dom_char.
  rewrite is_letter_case, is_09_case, !eqb_case by reflexivity. reflexivity.
Qed.

Lemma take_while_map (p : char -> bool) (s : pystr) :
  (forall c, p (ascii_lower c) = p c) ->
  take_while p (List.map ascii_lower s) = List.map ascii_lower (take_while p s).
Proof.
  intros Hp. induction s as [| c r IH]; [reflexivity |].
  cbn. rewrite Hp. destruct (p c); [cbn; f_equal; exact IH | reflexivity].
Qed.

Lemma match_tld_case (s : pystr) :
  match_tld (List.map ascii_lower s)
  = option_map (List.map ascii_lower) (match_tld s).
Proof.
  destruct s as [| c r]; [reflexivity |]. unfold match_tld. cbn [List.map].
  rewrite (eqb_case c DOT) by reflexivity.
  destruct (N.eqb c DOT); [| reflexivity]. cbv zeta.
  rewrite (take_while_map _ _ is_letter_case), length_map.
  destruct (2 <=? _); reflexivity.
Qed.

Lemma match_rest_case (s : pystr) :
  match_rest (List.map ascii_lower s)
  = option_map (List.map ascii_lower) (match_rest s).
Proof.
  induction s as [| c r IH]; [reflexivity |].
  cbn [List.map match_rest]. rewrite dom_char_case, IH.
  change (ascii_lower c :: List.map ascii_lower r)
    with (List.map ascii_lower (c :: r)).
  rewrite match_tld_case.
  destruct (dom_char c); [destruct (match_rest r) |]; reflexivity.
Qed.

Lemma match_domain_case (s : pystr) :
  match_domain (List.map ascii_lower s)
  = option_map (List.map ascii_lower) (match_domain s).
Proof.
  destruct s as [| c r]; [reflexivity |]. unfold match_domain.
  cbn [List.map]. rewrite dom_char_case, match_rest_case.
  destruct (dom_char c); [destruct (match_rest r) |]; reflexivity.
Qed.

Lemma search_domain_case (s : pystr) :
  search_domain (List.map ascii_lower s)
  = option_map (List.map ascii_lower) (search_domain s).
Proof.
  induction s as [| c r IH]; [reflexivity |].
  cbn [List.map search_domain].
  rewrite (eqb_case c AT) by reflexivity. rewrite match_domain_case, IH.
  destruct (N.eqb c AT); [destruct (match_domain r) |]; reflexivity.
Qed.

Lemma contains_at_case (s : pystr) :
  contains [AT] (List.map ascii_lower s) = contains [AT] s.
Proof.
  induction s as [| c r IH]; [reflexivity |].
  cbn [List.map contains startswith]. rewrite IH.
  rewrite (N.eqb_sym AT (ascii_lower c)), (N.eqb_sym AT c).
  rewrite (eqb_case c AT) by reflexivity. reflexivity.
Qed.

Lemma local_part_length_case (s : pystr) :
  Security.local_part_length (List.map ascii_lower s)
  = Security.local_part_length s.
Proof.
  unfold Security.local_part_length. rewrite take_while_map, length_map;
    [reflexivity |].
  intros c. rewrite (eqb_case c AT) by reflexivity. reflexivity.
Qed.

Section CaseFacts.
Context {U : UnicodeDB}.

Lemma sender_domain_case (addr : pystr) :
  sender_domain (List.map ascii_lower addr) = sender_domain addr.
Proof.
  unfold sender_domain. rewrite search_domain_case.
  destruct (search_domain addr) as [m |] eqn:E; [| reflexivity]. cbn.
  destruct (search_domain_shape _ E) as (pre & suf & _ & Hs).
  pose proof (shape_ascii Hs) as Hm.
  rewrite (lower_ascii U _ Hm), lower_ascii
    by (rewrite all_ascii_map_lower; exact Hm).
  apply map_lower_idem.
Qed.

Lemma lower_text_case (a b : pystr) :
  List.map ascii_lower (List.map ascii_lower a ++ SP :: b)
  = List.map ascii_lower (a ++ SP :: b).
Proof. rewrite !map_app, map_lower_idem. reflexivity. Qed.

(** X20.  On ASCII text the detectors do not see letter case: putting
    subject, body and address in lower case first changes neither the
    score nor the two verdicts. *)
Theorem detectors_ignore_case :
  forall subject body sender_addr : pystr,
    all_ascii subject = true -> all_ascii body = true ->
    all_ascii sender_addr = true ->
    Security.phishing_score (lower subject) (lower body) (lower sender_addr)
    = Security.phishing_score subject body sender_addr
    /\ Security.is_phishing (lower subject) (lower body) (lower sender_addr)
       = Security.is_phishing subject body sender_addr
    /\ Security.is_spam (lower subject) (lower body) (lower sender_addr)
       = Security.is_spam subject body sender_addr.
Proof.
  intros subject body sender_addr H1 H2 H3.
  rewrite (lower_ascii U _ H1), (lower_ascii U _ H2), (lower_ascii U _ H3).
  set (sub' := List.map ascii_lower subject).
  set (body' := List.map ascii_lower body).
  set (addr' := List.map ascii_lower sender_addr).
  assert (A1 : all_ascii sub' = true) by (unfold sub'; rewrite all_ascii_map_lower; exact H1).
  assert (A2 : all_ascii body' = true) by (unfold body'; rewrite all_ascii_map_lower; exact H2).
  assert (A3 : all_ascii addr' = true) by (unfold addr'; rewrite all_ascii_map_lower; exact H3).
  assert (Hs : lower (sub' ++ SP :: body' ++ SP :: addr')
               = lower (subject ++ SP :: body ++ SP :: sender_addr)).
  { rewrite (lower_ascii U _ (message_ascii _ _ _ A1 A2 A3)).
    rewrite (lower_ascii U _ (message_ascii _ _ _ H1 H2 H3)).
    unfold sub', body', addr'.
    rewrite !map_app. cbn [List.map]. rewrite !map_app. cbn [List.map].
    rewrite !map_lower_idem. reflexivity. }
  assert (Ht : lower (sub' ++ SP :: body') = lower (subject ++ SP :: body)).
  { rewrite !lower_ascii.
    - unfold sub', body'. rewrite !map_app. cbn [List.map].
      rewrite !map_lower_idem. reflexivity.
    - rewrite all_ascii_app, H1. cbn. exact H2.
    - rewrite all_ascii_app, A1. cbn. exact A2. }
  assert (Hl : lower addr' = lower sender_addr).
  { rewrite (lower_ascii U _ A3), (lower_ascii U _ H3).
    apply map_lower_idem. }
  assert (Hscore : Security.phishing_score sub' body' addr'
                   = Security.phishing_score subject body sender_addr).
  { unfold Security.phishing_score. cbv zeta. rewrite Hs.
    unfold addr'. rewrite contains_at_case, local_part_length_case.
    reflexivity. }
  split; [exact Hscore |]. split.
  - unfold Security.is_phishing. cbv zeta. rewrite Hscore.
    unfold addr'. rewrite sender_domain_case. reflexivity.
  - unfold Security.is_spam. cbv zeta. rewrite Ht, Hl.
    unfold addr'. rewrite sender_domain_case. reflexivity.
Qed.

End CaseFacts.

Lemma detectors_ignore_case_witness :
  Security.phishing_score (U := ascii_only) (lower (U := ascii_only) lure_subject)
    (lower (U := ascii_only) lure_body) (lower (U := ascii_only) lure_sender)
  = Security.phishing_score (U := ascii_only) lure_subject lure_body lure_sender
  /\ Security.is_phishing (U := ascii_only) (lower (U := ascii_only) lure_subject)
       (lower (U := ascii_only) lure_body) (lower (U := ascii_only) lure_sender)
     = Security.is_phishing (U := ascii_only) lure_subject lure_body lure_sender
  /\ Security.is_spam (U := ascii_only) (lower (U := ascii_only) lure_subject)
       (lower (U := ascii_only) lure_body) (lower (U := ascii_only) lure_sender)
     = Security.is_spam (U := ascii_only) lure_subject lure_body lure_sender.
Proof.
  apply (@detectors_ignore_case ascii_only); vm_compute; reflexivity.
Defined.

(** * Similarity *)

Lemma eqb_sym (a b : pystr) : eqb a b = eqb b a.
Proof.
  destruct (eqb a b) eqn:E.
  - apply eqb_eq in E. subst b. symmetry. apply eqb_refl.
  - symmetry. apply eqb_neq. apply eqb_neq in E. congruence.
Qed.

Lemma ratio_ge_sym (num den : Z) (a b : pystr) :
  Difflib.matches a b = Difflib.matches b a ->
  ratio_ge num den a b = ratio_ge num den b a.
Proof.
  intros H. unfold ratio_ge, Difflib.ratio.
  rewrite H, (Nat.add_comm (length a) (length b)). reflexivity.
Qed.

Section SimilarFacts.
Context {U : UnicodeDB}.

(** X21.  [_projects_similar] is symmetric wherever the matcher finds as
    many matching characters in one order as in the other: the ratio is its
    only test that depends on the order of the two names. *)
Theorem projects_similar_symmetric :
  forall a_key b_key a_orig b_orig : pystr,
    Difflib.matches a_key b_key = Difflib.matches b_key a_key ->
    _projects_similar a_key b_key a_orig b_orig
    = _projects_similar b_key a_key b_orig a_orig.
Proof.
  intros a b oa ob H. unfold _projects_similar.
  rewrite (orb_comm (is_empty a)), (eqb_sym a b).
  rewrite (ratio_ge_sym 88 100 _ _ H), (ratio_ge_sym 80 100 _ _ H).
  rewrite (orb_comm (contains a b)), (Nat.min_comm (length a)),
    (Nat.max_comm (length a)), (eqb_sym (firstn 3 a)).
  destruct (abbrev_rule a b oa), (abbrev_rule b a ob);
    repeat match goal with
           | |- context [if ?c then _ else _] => destruct c
           end; reflexivity.
Qed.

(** Only the abbreviation status of the first name is read. *)
Lemma sim_to_same (x y : pystr) (kr : pystr * pystr) :
  _proj_norm_key (VStr x) = _proj_norm_key (VStr y) ->
  _is_abbrev_orig x = _is_abbrev_orig y ->
  sim_to x kr = sim_to y kr.
Proof.
  intros Hk Ha. unfold sim_to, _projects_similar, abbrev_rule.
  rewrite Hk, Ha. reflexivity.
Qed.

Lemma similar_refl (k o1 o2 : pystr) :
  k <> [] -> _projects_similar k k o1 o2 = true.
Proof.
  intros H. unfold _projects_similar.
  destruct k; [contradiction |]. cbn [is_empty orb].
  rewrite eqb_refl. reflexivity.
Qed.

Lemma place_none (k orig : pystr) (clusters : list cluster) :
  place k orig clusters = None ->
  existsb (fun kr => _projects_similar k (fst kr) orig (snd kr))
    (List.map sig clusters) = false.
Proof.
  induction clusters as [| cl r IH]; [reflexivity |]. cbn [place].
  destruct (_projects_similar k (key cl) orig (repr cl)) eqn:E; [discriminate |].
  destruct (place k orig r) eqn:Ep; [discriminate |]. intros _.
  cbn [List.map existsb].
  change (_projects_similar k (fst (sig cl)) orig (snd (sig cl)))
    with (_projects_similar k (key cl) orig (repr cl)).
  rewrite E. apply IH. reflexivity.
Qed.

Lemma first_fit_place (orig : pystr) (prev : list (pystr * pystr))
    (clusters clusters' : list cluster) :
  existsb (sim_to orig) prev = false ->
  first_fit prev clusters ->
  place (_proj_norm_key (VStr orig)) orig clusters = Some clusters' ->
  first_fit prev clusters'.
Proof.
  revert prev clusters'.
  induction clusters as [| cl r IH]; intros prev clusters' Hp Hf Hpl;
    [discriminate |].
  cbn [place] in Hpl. destruct Hf as [Hcl Hr].
  destruct (_projects_similar _ (key cl) orig (repr cl)) eqn:E.
  - injection Hpl as <-. cbn [first_fit]. split; [| exact Hr].
    cbn [members]. intros m Hm. apply in_app_or in Hm.
    destruct Hm as [Hm | [<- | []]]; [apply Hcl, Hm |].
    split; [exact E | exact Hp].
  - destruct (place _ orig r) as [r' |] eqn:Er; [| discriminate].
    injection Hpl as <-. cbn [first_fit]. split; [exact Hcl |].
    apply IH; [| exact Hr | reflexivity].
    rewrite existsb_app, Hp. cbn. unfold sim_to, sig. cbn [fst snd].
    rewrite E. reflexivity.
Qed.

Lemma first_fit_snoc (prev : list (pystr * pystr)) (clusters : list cluster)
    (new : cluster) :
  first_fit prev clusters ->
  (forall m, In m (members new) ->
             sim_to m (sig new) = true
             /\ existsb (sim_to m) (prev ++ List.map sig clusters) = false) ->
  first_fit prev (clusters ++ [new]).
Proof.
  revert prev. induction clusters as [| cl r IH]; intros prev Hf Hn.
  - cbn. split; [| exact I]. intros m Hm. specialize (Hn m Hm).
    cbn in Hn. rewrite app_nil_r in Hn. exact Hn.
  - destruct Hf as [Hcl Hr]. cbn [app first_fit]. split; [exact Hcl |].
    apply IH; [exact Hr |]. intros m Hm. specialize (Hn m Hm).
    cbn [List.map] in Hn. rewrite <- app_assoc. exact Hn.
Qed.

Lemma first_fit_step (clusters : list cluster) (orig : pystr) :
  first_fit [] clusters -> first_fit [] (cluster_step clusters orig).
Proof.
  intros Hf. unfold cluster_step. cbv zeta.
  destruct (is_empty (_proj_norm_key (VStr orig))) eqn:Ek; [exact Hf |].
  destruct (place _ orig clusters) as [clusters' |] eqn:Ep.
  - apply (@first_fit_place orig [] clusters clusters'); auto.
  - apply first_fit_snoc; [exact Hf |].
    cbn [members]. intros m [<- | []]. split.
    + unfold sim_to, sig. cbn [fst snd key repr]. apply similar_refl.
      intros H. rewrite H in Ek. discriminate.
    + cbn [app]. apply (@place_none _ _ _ Ep).
Qed.

Lemma first_fit_build (uniques : list pystr) :
  first_fit [] (build_clusters uniques).
Proof.
  unfold build_clusters. generalize (@nil cluster) (I : first_fit [] []).
  induction uniques as [| u r IH]; intros clusters Hf; [exact Hf |].
  cbn [fold_left]. apply IH, first_fit_step, Hf.
Qed.

Lemma first_fit_in (prev : list (pystr * pystr)) (clusters : list cluster)
    (cl : cluster) (m : pystr) :
  first_fit prev clusters -> In cl clusters -> In m (members cl) ->
  sim_to m (sig cl) = true /\ existsb (sim_to m) prev = false.
Proof.
  revert prev. induction clusters as [| c r IH]; intros prev Hf Hin Hm;
    [destruct Hin |].
  destruct Hf as [Hc Hr]. destruct Hin as [-> | Hin]; [apply Hc, Hm |].
  destruct (IH _ Hr Hin Hm) as [H1 H2]. split; [exact H1 |].
  rewrite existsb_app in H2. apply orb_false_elim in H2. apply H2.
Qed.

Lemma first_fit_same (prev : list (pystr * pystr)) (clusters : list cluster)
    (c1 c2 : cluster) (x y : pystr) :
  first_fit prev clusters ->
  (forall kr, sim_to x kr = sim_to y kr) ->
  In c1 clusters -> In c2 clusters ->
  In x (members c1) -> In y (members c2) -> c1 = c2.
Proof.
  intros Hf Hxy. revert prev Hf.
  induction clusters as [| c r IH]; intros prev Hf H1 H2 Hx Hy; [destruct H1 |].
  destruct Hf as [Hc Hr].
  destruct H1 as [<- | H1]; destruct H2 as [<- | H2].
  - reflexivity.
  - exfalso. destruct (Hc _ Hx) as [Hs _].
    destruct (@first_fit_in _ _ _ _ Hr H2 Hy) as [_ Hn].
    rewrite existsb_app in Hn. apply orb_false_elim in Hn.
    destruct Hn as [_ Hn]. cbn in Hn. rewrite <- Hxy, Hs in Hn. discriminate.
  - exfalso. destruct (Hc _ Hy) as [Hs _].
    destruct (@first_fit_in _ _ _ _ Hr H1 Hx) as [_ Hn].
    rewrite existsb_app in Hn. apply orb_false_elim in Hn.
    destruct Hn as [_ Hn]. cbn in Hn. rewrite Hxy, Hs in Hn. discriminate.
  - apply (IH _ Hr H1 H2 Hx Hy).
Qed.

(** X22.  Two names of the map with the same normalised key get the same
    label, provided both or neither are written as an abbreviation (one to
    three upper-case letters). *)
Theorem same_key_same_label :
  forall (project_values : list pyval) (x y : pystr),
    mapping_find (build_project_canonical_map project_values) x <> None ->
    mapping_find (build_project_canonical_map project_values) y <> None ->
    _proj_norm_key (VStr x) = _proj_norm_key (VStr y) ->
    _is_abbrev_orig x = _is_abbrev_orig y ->
    mapping_find (build_project_canonical_map project_values) x
    = mapping_find (build_project_canonical_map project_values) y.
Proof.
  intros values x y Hx Hy Hk Ha.
  destruct (mapping_find _ x) as [cx |] eqn:Ex; [| contradiction].
  destruct (mapping_find _ y) as [cy |] eqn:Ey; [| contradiction].
  destruct (build_map_find _ _ Ex) as (c1 & H1 & Hm1 & ->).
  destruct (build_map_find _ _ Ey) as (c2 & H2 & Hm2 & ->).
  f_equal. f_equal.
  apply (@first_fit_same [] _ c1 c2 x y
           (first_fit_build (sorted_uniques (count_values values)))); auto.
  intros kr. apply sim_to_same; assumption.
Qed.

(** X23.  A display name has no white space at either end and nothing but
    single spaces inside. *)
Theorem display_name_whitespace :
  forall s : pyval,
    strip (_proj_display_name s) = _proj_display_name s
    /\ norm_ws false (_proj_display_name s) = true.
Proof.
  intros s. unfold _proj_display_name. cbv zeta.
  destruct (is_empty (strip (coerce_str s))); [split; reflexivity |].
  split; [apply strip_idem |].
  unfold strip at 1. eapply norm_ws_rstrip, norm_ws_lstrip.
  apply sub_runs_space_norm.
Qed.

End SimilarFacts.

Lemma projects_similar_symmetric_witness :
  _projects_similar (U := ascii_only) (py "alpha") (py "alpha beta")
    (py "Alpha") (py "Alpha Beta")
  = _projects_similar (U := ascii_only) (py "alpha beta") (py "alpha")
      (py "Alpha Beta") (py "Alpha").
Proof.
  apply (@projects_similar_symmetric ascii_only). vm_compute. reflexivity.
Defined.

Lemma same_key_same_label_witness :
  mapping_find (build_project_canonical_map (U := ascii_only) alpha_batch)
    (py "ALPHA")
  = mapping_find (build_project_canonical_map (U := ascii_only) alpha_batch)
      (py "Alpha Implementation").
Proof.
  apply (@same_key_same_label ascii_only); vm_compute;
    first [reflexivity | discriminate].
Defined.

(** The abbreviation status matters: ["AB"] and ["ab"] have the key
    ["ab"], and ["AB"] alone joins the cluster of ["AB cd"]. *)
Lemma same_key_different_label :
  _proj_norm_key (U := ascii_only) (VStr (py "AB"))
  = _proj_norm_key (U := ascii_only) (VStr (py "ab"))
  /\ mapping_find (build_project_canonical_map (U := ascii_only) abbrev_batch)
       (py "AB") = Some (py "AB cd")
  /\ mapping_find (build_project_canonical_map (U := ascii_only) abbrev_batch)
       (py "ab") = Some (py "Ab").
Proof. vm_compute. repeat split. Qed.

(** * Bundles with lists and dicts *)

Lemma jfind_lift (data : pydict) (k : string) :
  Json.jfind (Json.lift data) k = option_map Json.JScalar (dict_find data k).
Proof.
  induction data as [| [k' v] r IH]; [reflexivity |]. cbn.
  destruct (String.eqb k k'); [reflexivity | exact IH].
Qed.

Lemma jget_lift (data : pydict) (k : string) (d : pyval) :
  Json.jget (Json.lift data) k (Json.JScalar d) = Json.JScalar (dget data k d).
Proof.
  unfold Json.jget, dget. rewrite jfind_lift.
  destruct (dict_find data k); reflexivity.
Qed.

Lemma bind_if {A B : Type} (c : bool) (a b : A) (k : A -> Json.outcome B) :
  Json.bind (if c then Json.Returns a else Json.Returns b) k
  = k (if c then a else b).
Proof. destruct c; reflexivity. Qed.

Section JsonScore.
Context {U : UnicodeDB}.
Variable container_str : Json.jval -> pystr.
Variable to_datetime : Json.jval -> option Z.
Variable now : Z.

Lemma summary_of_lift (data : pydict) :
  Json.summary_of container_str (Json.lift data) = summary_of data.
Proof. unfold Json.summary_of, summary_of. rewrite jget_lift. reflexivity. Qed.

Lemma full_context_check_lift (data : pydict) (subject : pystr) :
  Json.full_context_check container_str (Json.lift data) subject
  = full_context_check data subject.
Proof.
  unfold Json.full_context_check, full_context_check.
  rewrite summary_of_lift, jget_lift. reflexivity.
Qed.

Lemma is_marketing_context_lift (data : pydict) (subject : pystr) :
  Json.is_marketing_context container_str (Json.lift data) subject
  = is_marketing_context data subject.
Proof.
  unfold Json.is_marketing_context, is_marketing_context.
  rewrite full_context_check_lift. reflexivity.
Qed.

Lemma deadline_weight_lift (data : pydict) :
  Json.deadline_weight to_datetime now (Json.lift data)
  = deadline_weight (fun v => to_datetime (Json.JScalar v)) now data.
Proof.
  unfold Json.deadline_weight, deadline_weight. rewrite !jget_lift. reflexivity.
Qed.

(** On a bundle of scalars the scorer returns, and returns the score of
    the scalar model. *)
Lemma score_of_scalars (data : pydict) (importance : pyval) (subject : pystr) :
  Json.calculate_priority_score container_str to_datetime now
    (Json.lift data) importance subject
  = Json.Returns
      (calculate_priority_score (fun v => to_datetime (Json.JScalar v)) now
         data importance subject).
Proof.
  unfold Json.calculate_priority_score.
  rewrite (jget_lift data "email_type" (VStr [])),
    (jget_lift data "action_level" (VStr (py "None"))),
    (jget_lift data "action_level" VNone),
    (jget_lift data "decision_level" VNone),
    (jget_lift data "urgency" (VStr (py "Low"))),
    (jget_lift data "blocks_others" VNone),
    (jget_lift data "decision_pending" VNone),
    (jget_lift data "deadline" VNone).
  rewrite (is_marketing_context_lift data subject),
    (full_context_check_lift data subject), (summary_of_lift data),
    (deadline_weight_lift data).
  cbn [Json.jis_str Json.jtruthy Json.weight_get Json.jval_in Json.bind].
  rewrite !bind_if. reflexivity.
Qed.

(** The scorer raises exactly when the type is a list or a dict, or the
    urgency is one outside marketing context. *)
Lemma score_raises_iff (data : Json.jdict) (importance : pyval)
    (subject : pystr) :
  Json.calculate_priority_score container_str to_datetime now data importance
    subject = Json.Raises Json.TypeError
  <-> Json.hashable (Json.jget data "email_type" (Json.JScalar (VStr [])))
      = false
      \/ (Json.is_marketing_context container_str data subject = false
          /\ Json.hashable
               (Json.jget data "urgency" (Json.JScalar (VStr (py "Low"))))
             = false).
Proof.
  unfold Json.calculate_priority_score. cbv zeta.
  destruct (Json.jget data "email_type" (Json.JScalar (VStr [])))
    as [v | items | fields];
    cbn [Json.jis_str andb Json.weight_get Json.bind Json.hashable];
    try (split; [intros _; left; reflexivity | reflexivity]).
  rewrite bind_if.
  destruct (Json.is_marketing_context container_str data subject);
    cbn [negb Json.bind].
  - split; [discriminate | intros [H | [H _]]; discriminate].
  - destruct (Json.jget data "urgency" (Json.JScalar (VStr (py "Low"))))
      as [u | items | fields];
      cbn [Json.weight_get Json.bind Json.hashable].
    + split; [discriminate | intros [H | [_ H]]; discriminate].
    + split; [intros _; right; split; reflexivity | reflexivity].
    + split; [intros _; right; split; reflexivity | reflexivity].
Qed.


(** C2.  The scorer raises [TypeError] on every bundle in which the
    classifier gave the type as a list, whatever the other fields, the
    importance and the subject: the lookup in the weight table hashes the
    list.  The claim says it never raises. *)
Theorem score_raises_on_listed_type :
  forall (items : list Json.jval) (rest : Json.jdict) (importance : pyval)
         (subject : pystr),
    Json.calculate_priority_score container_str to_datetime now
      (("email_type"%string, Json.JArray items) :: rest) importance subject
    = Json.Raises Json.TypeError.
Proof.
  intros. apply score_raises_iff. left. reflexivity.
Qed.


End JsonScore.

(** The first example answer raises; the second, about a webinar, is
    scored although its urgency is a list. *)
Lemma listed_type_raises :
  Json.calculate_priority_score (U := ascii_only) (fun _ => []) (fun _ => None) 0
    Json.listed_type_bundle (VStr []) (py "Weekly sync")
  = Json.Raises Json.TypeError.
Proof. vm_compute. reflexivity. Qed.


(** * A second failure of idempotence *)

(** Without any prefix word: the labels in use after the rewrite are
    ["Beta Gamma Delta"] and ["Gamma Delta"], the first contains the second,
    and the rebuilt map merges them. *)
Lemma unification_merges_labels :
  unify_projects_in_df (U := ascii_only) (Some beta_batch)
  = Some [VStr (py "Beta Gamma Delta"); VStr (py "Beta Gamma Delta");
          VStr (py "Beta Gamma Delta"); VStr (py "Beta Gamma Delta");
          VStr (py "Gamma Delta")]
  /\ build_project_canonical_map (U := ascii_only)
       [VStr (py "Beta Gamma Delta"); VStr (py "Beta Gamma Delta");
        VStr (py "Beta Gamma Delta"); VStr (py "Beta Gamma Delta");
        VStr (py "Gamma Delta")]
     = [(py "Beta Gamma Delta", py "Beta Gamma Delta");
        (py "Gamma Delta", py "Beta Gamma Delta")]
  /\ identity_map
       (build_project_canonical_map (U := ascii_only)
          [VStr (py "Beta Gamma Delta"); VStr (py "Beta Gamma Delta");
           VStr (py "Beta Gamma Delta"); VStr (py "Beta Gamma Delta");
           VStr (py "Gamma Delta")]) = false.
Proof. split; [| split]; vm_compute; reflexivity. Qed.
